(** * graphql-sniper: header handling, wordlist tokenisation, the fuzz loop
    and the forwarding proxy, embedded in Rocq.

    Strings are sequences of 8-bit code units (Latin-1), [Stdlib.String]'s
    [string].  A JavaScript object used as a map is a [gmap string _]. *)

From Stdlib Require Import String Ascii ZArith Lia Sorting.Sorted Sorting.Permutation.
From stdpp Require Import base gmap sets list strings.

Open Scope string_scope.

(* ------------------------------------------------------------------ *)
(** ** Character classes and string helpers (the JS builtins used)     *)
(* ------------------------------------------------------------------ *)

Definition code (c : ascii) : nat := nat_of_ascii c.

(** JS [WhiteSpace] and [LineTerminator] restricted to Latin-1: TAB, LF,
    VT, FF, CR, SPACE, NBSP.  This is what [String.prototype.trim] strips
    and what the regex class [\s] matches. *)
Definition is_ws (c : ascii) : bool :=
  let n := code c in
  (9 <=? n)%nat && (n <=? 13)%nat || (n =? 32)%nat || (n =? 160)%nat.

Definition is_upper (c : ascii) : bool := (65 <=? code c)%nat && (code c <=? 90)%nat.
Definition is_lower (c : ascii) : bool := (97 <=? code c)%nat && (code c <=? 122)%nat.
Definition is_digit (c : ascii) : bool := (48 <=? code c)%nat && (code c <=? 57)%nat.
Definition is_alnum (c : ascii) : bool := is_upper c || is_lower c || is_digit c.

(** [String.prototype.toLowerCase] on one Latin-1 code unit: A-Z and
    U+00C0..U+00DE except U+00D7 move down by 32. *)
Definition lower_char (c : ascii) : ascii :=
  let n := code c in
  if is_upper c || ((192 <=? n)%nat && (n <=? 222)%nat && negb (n =? 215)%nat)
  then ascii_of_nat (n + 32)%nat else c.

Fixpoint toLowerCase (s : string) : string :=
  match s with
  | EmptyString => EmptyString
  | String c r => String (lower_char c) (toLowerCase r)
  end.

Fixpoint drop_ws (l : list ascii) : list ascii :=
  match l with
  | c :: r => if is_ws c then drop_ws r else l
  | [] => []
  end.

(** [String.prototype.trim] *)
Definition trim (s : string) : string :=
  string_of_list_ascii (rev (drop_ws (rev (drop_ws (list_ascii_of_string s))))).

(** [s.split(/X+/)] for a character class [X]: the pieces between maximal
    runs of separator characters (empty pieces at the ends kept, as JS
    does).  [acc] is the current piece, reversed; [inrun] tells whether
    the previous character was a separator. *)
Fixpoint split_runs_go (sep : ascii -> bool) (l : list ascii)
    (acc : list ascii) (inrun : bool) : list string :=
  match l with
  | [] => [string_of_list_ascii (rev acc)]
  | c :: r =>
      if sep c then
        if inrun then split_runs_go sep r [] true
        else string_of_list_ascii (rev acc) :: split_runs_go sep r [] true
      else split_runs_go sep r (c :: acc) false
  end.

Definition split_runs (sep : ascii -> bool) (s : string) : list string :=
  split_runs_go sep (list_ascii_of_string s) [] false.

(** [s.split(/\r?\n/)]: split at every LF; a CR right before the LF
    belongs to the separator. *)
Fixpoint split_lines_go (l : list ascii) (acc : list ascii) : list string :=
  match l with
  | [] => [string_of_list_ascii (rev acc)]
  | c :: r =>
      if Ascii.eqb c "010"%char then
        let piece := match acc with
                     | "013"%char :: acc' => acc'
                     | _ => acc
                     end in
        string_of_list_ascii (rev piece) :: split_lines_go r []
      else split_lines_go r (c :: acc)
  end.

Definition split_lines (s : string) : list string :=
  split_lines_go (list_ascii_of_string s) [].

(** [s.indexOf(':')] *)
Fixpoint indexOf_colon (s : string) : option nat :=
  match s with
  | EmptyString => None
  | String c r => if Ascii.eqb c ":"%char then Some 0
                  else option_map S (indexOf_colon r)
  end.

(** Case-insensitive prefix test: [/^(GET|POST|...)\s+/i]. *)
Definition http_methods : list string :=
  ["GET"; "POST"; "PUT"; "PATCH"; "DELETE"; "HEAD"; "OPTIONS"].

Definition starts_with_method_ws (s : string) : bool :=
  existsb (fun m =>
    let n := String.length m in
    String.eqb (toLowerCase (substring 0 n s)) (toLowerCase m)
    && match get n s with Some c => is_ws c | None => false end)
    http_methods.

(* ------------------------------------------------------------------ *)
(** ** Header parsing (src/unnamed/part_002, parseRawHeaders and
       mergeDefaultJsonContentType)                                    *)
(* ------------------------------------------------------------------ *)

Abbreviation HeaderMap := (gmap string string).

(** The body of the [for (const line of lines)] loop: [None] where the
    loop [continue]s, [Some (key, value)] where it reaches
    [headers[key] = value]. *)
Definition header_line_entry (line : string) : option (string * string) :=
  let trimmed := trim line in
  if String.eqb trimmed "" then None
  else if starts_with_method_ws trimmed then None
  else match indexOf_colon trimmed with
       | None => None
       | Some idx =>
           let key := trim (substring 0 idx trimmed) in
           let value := trim (substring (S idx) (String.length trimmed) trimmed) in
           if String.eqb key "" then None
           else if String.eqb (toLowerCase key) "content-length" then None
           else Some (key, value)
       end.

(** The object assignment [headers[key] = value] is map insertion. *)
Definition parse_header_line (headers : HeaderMap) (line : string) : HeaderMap :=
  match header_line_entry line with
  | Some (key, value) => <[key := value]> headers
  | None => headers
  end.

Definition parseRawHeaders (raw : string) : HeaderMap :=
  fold_left parse_header_line (split_lines raw) ∅.

(** [Object.keys(headers).find((k) => k.toLowerCase() === 'content-type')];
    only whether a key is found matters to the caller. *)
Definition ctKey (headers : HeaderMap) : option string :=
  List.find (fun k => String.eqb (toLowerCase k) "content-type")
    (map fst (map_to_list headers)).

(** [{ 'Content-Type': 'application/json', ...headers }]: the spread
    copies every entry of [headers] over the literal, so [headers] wins. *)
Definition mergeDefaultJsonContentType (headers : HeaderMap) : HeaderMap :=
  match ctKey headers with
  | None => headers ∪ {[ "Content-Type" := "application/json" ]}
  | Some _ => headers
  end.

Definition LF : string := String "010" EmptyString.
Definition CRLF : string := String "013" LF.

Example parseRawHeaders_ex :
  parseRawHeaders ("POST /graphql HTTP/1.1" ++ CRLF ++ "Host: a" ++ CRLF ++
     "Content-Length: 5" ++ LF ++ "X: 1" ++ LF ++ " X :  2 " ++ LF ++ ": v" ++ LF)
  = <["X" := "2"]> {[ "Host" := "a" ]}.
Proof. vm_compute. reflexivity. Qed.

(* ------------------------------------------------------------------ *)
(** ** Session wordlist tokenisation (src/unnamed/part_006,
       splitWordsTokenize and addWord)                                 *)
(* ------------------------------------------------------------------ *)

(** [piece.replace(/([a-z0-9])([A-Z])/g, '$1 $2')]: a global scan that
    resumes after each match. *)
Fixpoint camel_space (l : list ascii) : list ascii :=
  match l with
  | c1 :: ((c2 :: r) as tl) =>
      if (is_lower c1 || is_digit c1) && is_upper c2
      then c1 :: " "%char :: c2 :: camel_space r
      else c1 :: camel_space tl
  | _ => l
  end.

(** The class [[\s_\-]]. *)
Definition is_sub_sep (c : ascii) : bool :=
  is_ws c || Ascii.eqb c "_"%char || Ascii.eqb c "-"%char.

(** The inner [for (const sub of spaced.split(/[\s_\-]+/))] loop. *)
Definition tokenize_piece (piece : string) : list string :=
  let spaced := string_of_list_ascii (camel_space (list_ascii_of_string piece)) in
  map toLowerCase (List.filter (fun sub => negb (String.eqb sub "")) (split_runs is_sub_sep spaced)).

Definition splitWordsTokenize (token : string) : list string :=
  if String.eqb token "" then []
  else List.concat (map tokenize_piece
         (List.filter (fun piece => negb (String.eqb piece ""))
            (split_runs (fun c => negb (is_alnum c)) token))).

(** [set.add] on a JS [Set<string>]. *)
Definition set_add (set : gset string) (x : string) : gset string := {[ x ]} ∪ set.

Definition addWord (set : gset string) (w : string) : gset string :=
  if String.eqb w "" then set
  else fold_left set_add (splitWordsTokenize w) (set_add set (toLowerCase w)).

Example splitWordsTokenize_ex1 :
  splitWordsTokenize "getUserData" = ["get"; "user"; "data"].
Proof. reflexivity. Qed.

Example splitWordsTokenize_ex2 :
  splitWordsTokenize "user_profile" = ["user"; "profile"].
Proof. reflexivity. Qed.

Example splitWordsTokenize_ex3 :
  splitWordsTokenize "__HTTPServer2Config-v1 x" = ["httpserver2"; "config"; "v1"; "x"].
Proof. reflexivity. Qed.

(* ------------------------------------------------------------------ *)
(** ** JSON values and [JSON.parse]                                    *)
(* ------------------------------------------------------------------ *)

(** String literals with a double quote in them are written with ['] in
    its place and passed through [dq]. *)
Fixpoint dq (s : string) : string :=
  match s with
  | EmptyString => EmptyString
  | String c r => String (if Ascii.eqb c "'"%char then "034"%char else c) (dq r)
  end.

(** A parsed JSON value.  Numbers keep their source lexeme; objects keep
    their members in source order (a property read takes the last
    duplicate, as [JSON.parse] does). *)
#[local] Set Warnings "-register-all".
Inductive Json : Type :=
| JNull
| JBool (b : bool)
| JNum (lexeme : string)
| JStr (s : string)
| JArr (items : list Json)
| JObj (members : list (string * Json)).

(** JSON whitespace: space, tab, LF, CR. *)
Definition is_json_ws (c : ascii) : bool :=
  Ascii.eqb c " "%char || Ascii.eqb c "009"%char ||
  Ascii.eqb c "010"%char || Ascii.eqb c "013"%char.

Fixpoint skip_ws (l : list ascii) : list ascii :=
  match l with
  | c :: r => if is_json_ws c then skip_ws r else l
  | [] => []
  end.

Definition hex_val (c : ascii) : option nat :=
  let n := code c in
  if is_digit c then Some (n - 48)%nat
  else if (97 <=? n)%nat && (n <=? 102)%nat then Some (n - 87)%nat
  else if (65 <=? n)%nat && (n <=? 70)%nat then Some (n - 55)%nat
  else None.

(** The body of a string literal after the opening quote; [acc] is the
    decoded text so far, reversed.  A [\uXXXX] escape becomes its low 8
    bits (code units above U+00FF are outside the Latin-1 model). *)
Fixpoint parse_str (l : list ascii) (acc : list ascii) : option (string * list ascii) :=
  match l with
  | [] => None
  | c :: r =>
      if Ascii.eqb c "034"%char then Some (string_of_list_ascii (rev acc), r)
      else if (code c <? 32)%nat then None
      else if Ascii.eqb c "\"%char then
        match r with
        | e :: r' =>
            if Ascii.eqb e "034"%char then parse_str r' (e :: acc)
            else if Ascii.eqb e "\"%char then parse_str r' (e :: acc)
            else if Ascii.eqb e "/"%char then parse_str r' (e :: acc)
            else if Ascii.eqb e "b"%char then parse_str r' ("008"%char :: acc)
            else if Ascii.eqb e "f"%char then parse_str r' ("012"%char :: acc)
            else if Ascii.eqb e "n"%char then parse_str r' ("010"%char :: acc)
            else if Ascii.eqb e "r"%char then parse_str r' ("013"%char :: acc)
            else if Ascii.eqb e "t"%char then parse_str r' ("009"%char :: acc)
            else if Ascii.eqb e "u"%char then
              match r' with
              | h1 :: h2 :: h3 :: h4 :: r'' =>
                  match hex_val h1, hex_val h2, hex_val h3, hex_val h4 with
                  | Some _, Some _, Some a, Some b =>
                      parse_str r'' (ascii_of_nat (a * 16 + b) :: acc)
                  | _, _, _, _ => None
                  end
              | _ => None
              end
            else None
        | [] => None
        end
      else parse_str r (c :: acc)
  end.

Fixpoint take_digits (l : list ascii) : list ascii * list ascii :=
  match l with
  | c :: r => if is_digit c then let '(d, r') := take_digits r in (c :: d, r') else ([], l)
  | [] => ([], [])
  end.

(** A number lexeme: [-? (0 | [1-9][0-9]* ) (. [0-9]+)? ([eE] [+-]? [0-9]+)?]. *)
Definition parse_num (l : list ascii) : option (string * list ascii) :=
  let '(sgn, l1) := match l with
                    | "-"%char :: r => (["-"%char], r)
                    | _ => ([], l)
                    end in
  let int_part :=
    match l1 with
    | "0"%char :: r => Some (["0"%char], r)
    | c :: _ => if is_digit c then Some (take_digits l1) else None
    | [] => None
    end in
  match int_part with
  | None => None
  | Some (ip, l2) =>
      let frac :=
        match l2 with
        | "."%char :: r =>
            let '(d, r') := take_digits r in
            match d with [] => None | _ => Some ("."%char :: d, r') end
        | _ => Some ([], l2)
        end in
      match frac with
      | None => None
      | Some (fp, l3) =>
          let expo :=
            match l3 with
            | e :: r =>
                if Ascii.eqb e "e"%char || Ascii.eqb e "E"%char then
                  let '(s, r1) := match r with
                                  | "+"%char :: r1 => (["+"%char], r1)
                                  | "-"%char :: r1 => (["-"%char], r1)
                                  | _ => ([], r)
                                  end in
                  let '(d, r2) := take_digits r1 in
                  match d with [] => None | _ => Some (e :: s ++ d, r2) end
                else Some ([], l3)
            | [] => Some ([], l3)
            end in
          match expo with
          | None => None
          | Some (ep, l4) => Some (string_of_list_ascii (sgn ++ ip ++ fp ++ ep), l4)
          end
      end
  end.

Fixpoint lit (w : list ascii) (l : list ascii) : option (list ascii) :=
  match w, l with
  | [], _ => Some l
  | c :: w', d :: l' => if Ascii.eqb c d then lit w' l' else None
  | _ :: _, [] => None
  end.

(** Recursive descent over the JSON grammar.  [n] is fuel: every call on
    a path of the recursion can be charged to a distinct input
    character, so [S (length input)] suffices. *)
Fixpoint parse_value (n : nat) (l : list ascii) : option (Json * list ascii) :=
  match n with
  | O => None
  | S n' =>
      match skip_ws l with
      | "["%char :: r =>
          match skip_ws r with
          | "]"%char :: r' => Some (JArr [], r')
          | _ => parse_elems n' r []
          end
      | "{"%char :: r =>
          match skip_ws r with
          | "}"%char :: r' => Some (JObj [], r')
          | _ => parse_members n' r []
          end
      | "034"%char :: r =>
          match parse_str r [] with Some (s, r') => Some (JStr s, r') | None => None end
      | "t"%char :: _ => option_map (fun r => (JBool true, r)) (lit (list_ascii_of_string "true") (skip_ws l))
      | "f"%char :: _ => option_map (fun r => (JBool false, r)) (lit (list_ascii_of_string "false") (skip_ws l))
      | "n"%char :: _ => option_map (fun r => (JNull, r)) (lit (list_ascii_of_string "null") (skip_ws l))
      | l' => match parse_num l' with Some (s, r) => Some (JNum s, r) | None => None end
      end
  end
with parse_elems (n : nat) (l : list ascii) (acc : list Json) : option (Json * list ascii) :=
  match n with
  | O => None
  | S n' =>
      match parse_value n' l with
      | Some (v, r) =>
          match skip_ws r with
          | ","%char :: r' => parse_elems n' r' (v :: acc)
          | "]"%char :: r' => Some (JArr (rev (v :: acc)), r')
          | _ => None
          end
      | None => None
      end
  end
with parse_members (n : nat) (l : list ascii) (acc : list (string * Json))
    : option (Json * list ascii) :=
  match n with
  | O => None
  | S n' =>
      match skip_ws l with
      | "034"%char :: r =>
          match parse_str r [] with
          | Some (k, r1) =>
              match skip_ws r1 with
              | ":"%char :: r2 =>
                  match parse_value n' r2 with
                  | Some (v, r3) =>
                      match skip_ws r3 with
                      | ","%char :: r4 => parse_members n' r4 ((k, v) :: acc)
                      | "}"%char :: r4 => Some (JObj (rev ((k, v) :: acc)), r4)
                      | _ => None
                      end
                  | None => None
                  end
              | _ => None
              end
          | None => None
          end
      | _ => None
      end
  end.

(** [JSON.parse]: [None] is the thrown [SyntaxError]. *)
Definition JSON_parse (s : string) : option Json :=
  let l := list_ascii_of_string s in
  match parse_value (S (List.length l)) l with
  | Some (v, r) => match skip_ws r with [] => Some v | _ => None end
  | None => None
  end.

(** Property read [obj[k]] on a parsed value ([None] is [undefined]). *)
Definition json_get (v : Json) (k : string) : option Json :=
  match v with
  | JObj ms => option_map snd (List.find (fun m => String.eqb (fst m) k) (rev ms))
  | _ => None
  end.

(** A number lexeme denotes zero when every digit before the exponent is 0. *)
Fixpoint lexeme_is_zero (l : list ascii) : bool :=
  match l with
  | [] => true
  | c :: r =>
      if Ascii.eqb c "e"%char || Ascii.eqb c "E"%char then true
      else if Ascii.eqb c "0"%char || Ascii.eqb c "-"%char || Ascii.eqb c "."%char
      then lexeme_is_zero r else false
  end.

(** JavaScript truthiness of a JSON value. *)
Definition json_truthy (v : Json) : bool :=
  match v with
  | JNull => false
  | JBool b => b
  | JNum s => negb (lexeme_is_zero (list_ascii_of_string s))
  | JStr s => negb (String.eqb s "")
  | _ => true
  end.

Example JSON_parse_ex1 :
  JSON_parse (dq " { 'a' : [1, -2.5e3, true, null], 'b': 'x\'y' } ") =
  Some (JObj [("a", JArr [JNum "1"; JNum "-2.5e3"; JBool true; JNull]);
              ("b", JStr (dq "x'y"))]).
Proof. reflexivity. Qed.

Example JSON_parse_ex2 : JSON_parse "{limit: 10}" = None.
Proof. reflexivity. Qed.

Example JSON_parse_ex3 : JSON_parse "[1,]" = None /\ JSON_parse "01" = None /\ JSON_parse "{}" = Some (JObj []).
Proof. repeat split; reflexivity. Qed.

(** [String(v)] / template-literal conversion of a JSON value.  Numbers
    print as their lexeme. *)
Fixpoint json_to_string (v : Json) : string :=
  match v with
  | JNull => "null"
  | JBool b => if b then "true" else "false"
  | JNum s => s
  | JStr s => s
  | JArr items =>
      (fix join (l : list Json) : string :=
         match l with
         | [] => ""
         | [x] => match x with JNull => "" | _ => json_to_string x end
         | x :: r => match x with JNull => "" | _ => json_to_string x end ++ "," ++ join r
         end) items
  | JObj _ => "[object Object]"
  end.

(** Decimal rendering of a natural number ([n.toString()]). *)
Fixpoint digits_go (fuel n : nat) (acc : string) : string :=
  match fuel with
  | O => acc
  | S f =>
      let acc' := String (ascii_of_nat (48 + n mod 10)) acc in
      if (n <? 10)%nat then acc' else digits_go f (n / 10) acc'
  end.

Definition nat_to_string (n : nat) : string := digits_go (S n) n "".

Definition Z_to_string (z : Z) : string :=
  if (z <? 0)%Z then "-" ++ nat_to_string (Z.to_nat (- z)) else nat_to_string (Z.to_nat z).

Example nat_to_string_ex : nat_to_string 0 = "0" /\ nat_to_string 200 = "200" /\ Z_to_string (-45) = "-45".
Proof. repeat split; reflexivity. Qed.

(* ------------------------------------------------------------------ *)
(** ** The extended fuzzer (src/unnamed/part_002)                      *)
(* ------------------------------------------------------------------ *)

Record ReplacementMarker : Type := mkMarker {
  marker_text : string;
  marker_from : nat;
  marker_to : nat
}.

(** [FuzzResult]; [responseBody] and [responseHeaders] hold whatever
    value the code stored (a string and a string map in the normal case). *)
Record FuzzResult : Type := mkFuzzResult {
  requestNum : nat;
  statusCode : string;
  contentLength : string;
  timeMs : nat;
  requestBody : string;
  responseBody : Json;
  responseHeaders : Json;
  wordlistItem : string
}.

(** The page state that [sendSingleRequest] reads from its closure. *)
Record FuzzConfig : Type := mkFuzzConfig {
  url : string;
  headersRaw : string;
  query : string;
  variables : string;
  useProxy : bool;
  proxyUrl : string
}.

(** An outgoing [fetch] call ([method] is always POST). *)
Record HttpRequest : Type := mkHttpRequest {
  hr_url : string;
  hr_headers : HeaderMap;
  hr_body : string
}.

(** What a [fetch] call, followed by reading the body, gives: a response
    (status, body text, header entries as [Headers.forEach] lists them),
    or a thrown error (its [name] and [message]). *)
Inductive FetchOutcome : Type :=
| FResp (status : Z) (body : string) (headers : list (string * string))
| FThrow (name message : string).

(** A request the fuzzer handed to [fetch]: its number, word, the
    [requestBodyObj] and the [fetch] call itself. *)
Record Dispatch : Type := mkDispatch {
  dp_num : nat;
  dp_word : string;
  dp_body : Json;
  dp_request : HttpRequest
}.

(** The settled promise of one [sendSingleRequest] call. *)
Inductive SendOutcome : Type :=
| Fulfilled (r : FuzzResult)
| Rejected (name message : string).

Definition parseWordlist (wordlistText : string) : list string :=
  List.filter (fun line => negb (String.eqb line "")) (map trim (split_lines wordlistText)).

Definition replaceTextInQuery (q : string) (marker : ReplacementMarker) (replacement : string) : string :=
  substring 0 (marker_from marker) q ++ replacement ++
  substring (marker_to marker) (String.length q - marker_to marker) q.

Definition headers_to_json (h : HeaderMap) : Json :=
  JObj (map (fun kv => (fst kv, JStr (snd kv))) (map_to_list h)).

Definition json_headers_of_entries (hs : list (string * string)) : Json :=
  JObj (map (fun kv => (fst kv, JStr (snd kv))) hs).

Example replaceTextInQuery_ex :
  replaceTextInQuery "{ users { id } }" (mkMarker "users" 2 7) "adminUsers"
  = "{ adminUsers { id } }".
Proof. reflexivity. Qed.

(** Outcome of the [try] block of [sendSingleRequest] after the request
    is settled: a thrown error (name, message) or the record's payload
    (statusCode, contentLength, responseBody, responseHeaders). *)
Definition Exc (A : Type) : Type := ((string * string) + A)%type.

(** The [else] branch: [summary.status?.toString() || 'Unknown'],
    [summary.body || ''], [summary.headers || {}] and
    [responseBodyStr.length.toString()]. *)
Definition proxy_success_result (summary : Json) : Exc (string * string * Json * Json) :=
  let sc := match json_get summary "status" with
            | None | Some JNull => "Unknown"
            | Some v => let s := json_to_string v in if String.eqb s "" then "Unknown" else s
            end in
  let body := match json_get summary "body" with
              | Some v => if json_truthy v then v else JStr ""
              | None => JStr ""
              end in
  let hdrs := match json_get summary "headers" with
              | Some v => if json_truthy v then v else JObj []
              | None => JObj []
              end in
  match body with
  | JStr s => inr (sc, nat_to_string (String.length s), body, hdrs)
  | JArr items => inr (sc, nat_to_string (List.length items), body, hdrs)
  | _ => inl ("TypeError", "Cannot read properties of undefined (reading 'toString')")
  end.

(** The proxy branch after [const summary = await proxyRes.json()]:
    [if (summary.error) ... else ...]; reading a property of [null]
    throws. *)
Definition proxy_result (summary : Json) : Exc (string * string * Json * Json) :=
  match summary with
  | JNull => inl ("TypeError", "Cannot read properties of null (reading 'error')")
  | _ =>
      match json_get summary "error" with
      | Some e =>
          if json_truthy e then inr ("Proxy Error: " ++ json_to_string e, "0", JStr "", JObj [])
          else proxy_success_result summary
      | None => proxy_success_result summary
      end
  end.

Section FuzzRun.

(** [JSON.stringify] is left abstract: no claim depends on its text. *)
Variable stringify : Json -> string.
(** The engine's [SyntaxError] message for a text [JSON.parse] rejects. *)
Variable parse_error_message : string -> string.
(** The network: the outcome of the [fetch] of request number [n]. *)
Variable fetch : nat -> HttpRequest -> FetchOutcome.
(** [Math.round(performance.now() - startTime)] for request number [n]. *)
Variable elapsed : nat -> nat.
(** Whether Stop has been pressed by the time the loop checks
    [controller.signal.aborted] before dispatching wordlist index [i]
    (a press during a configured delay is seen at the next check). *)
Variable stop : nat -> bool.

(** The [catch (err)] block of [sendSingleRequest]. *)
Definition catch_result (n : nat) (w : string) (name message : string) : SendOutcome :=
  if String.eqb name "AbortError" then Rejected name message
  else Fulfilled (mkFuzzResult n
         ("Error: " ++ (if String.eqb message "" then "Unknown" else message))
         "0" (elapsed n) "" (JStr "") (JObj []) w).

Definition sendSingleRequest (cfg : FuzzConfig) (replacementMarker : option ReplacementMarker)
    (n : nat) (w : string) : option Dispatch * SendOutcome :=
  let headers := mergeDefaultJsonContentType (parseRawHeaders (headersRaw cfg)) in
  let currentQuery := match replacementMarker with
                      | Some m => replaceTextInQuery (query cfg) m w
                      | None => query cfg
                      end in
  let varsText := if String.eqb (variables cfg) "" then "{}" else variables cfg in
  match JSON_parse varsText with
  | None => (None, catch_result n w "SyntaxError" (parse_error_message varsText))
  | Some vars =>
      let requestBodyObj := JObj [("query", JStr currentQuery); ("variables", vars)] in
      let requestBodyStr := stringify requestBodyObj in
      if useProxy cfg then
        let req := mkHttpRequest (proxyUrl cfg) {[ "Content-Type" := "application/json" ]}
                     (stringify (JObj [("url", JStr (url cfg)); ("method", JStr "POST");
                                       ("headers", headers_to_json headers);
                                       ("body", JStr requestBodyStr)])) in
        let d := Some (mkDispatch n w requestBodyObj req) in
        match fetch n req with
        | FThrow nm msg => (d, catch_result n w nm msg)
        | FResp _ text _ =>
            match JSON_parse text with
            | None => (d, catch_result n w "SyntaxError" (parse_error_message text))
            | Some summary =>
                match proxy_result summary with
                | inl (nm, msg) => (d, catch_result n w nm msg)
                | inr (sc, cl, rb, rh) =>
                    (d, Fulfilled (mkFuzzResult n sc cl (elapsed n) requestBodyStr rb rh w))
                end
            end
        end
      else
        let req := mkHttpRequest (url cfg) headers requestBodyStr in
        let d := Some (mkDispatch n w requestBodyObj req) in
        match fetch n req with
        | FThrow nm msg => (d, catch_result n w nm msg)
        | FResp status text hs =>
            (d, Fulfilled (mkFuzzResult n (Z_to_string status) (nat_to_string (String.length text))
                             (elapsed n) requestBodyStr (JStr text) (json_headers_of_entries hs) w))
        end
  end.


Local Open Scope list_scope.

(** The state [startFuzzing] drives: the [results] and [progressCount]
    React state, [isRunning], and an observation log: the [fetch] calls
    made, the request numbers passed to [sendSingleRequest] per batch
    (one per iteration in sequential mode), their settled outcomes, and
    the value of [results] after each batch. *)
Record RunState : Type := mkRunState {
  rs_results : list FuzzResult;
  rs_progress : nat;
  rs_running : bool;
  rs_dispatched : list Dispatch;
  rs_calls : list (list nat);
  rs_settled : list (list SendOutcome);
  rs_snapshots : list (list FuzzResult)
}.

Definition initial_run : RunState := mkRunState [] 0 true [] [] [] [].

Definition option_list {A} (o : option A) : list A :=
  match o with Some x => [x] | None => [] end.

(** Sequential mode ([threads === 1]): [count] is [requestCountRef]. An
    [AbortError] rethrown by [sendSingleRequest] leaves the loop before
    [setResults]. *)
Fixpoint seq_loop (cfg : FuzzConfig) (m : ReplacementMarker) (ws : list string)
    (count : nat) (sig : bool) (st : RunState) : RunState :=
  match ws with
  | [] => st
  | w :: ws' =>
      let sig := sig || stop count in
      if sig then st else
      let n := S count in
      let '(d, out) := sendSingleRequest cfg (Some m) n w in
      let dispatched := rs_dispatched st ++ option_list d in
      let calls := rs_calls st ++ [[n]] in
      let settled := rs_settled st ++ [[out]] in
      match out with
      | Rejected _ _ =>
          mkRunState (rs_results st) (rs_progress st) (rs_running st) dispatched calls settled
            (rs_snapshots st)
      | Fulfilled r =>
          let res := rs_results st ++ [r] in
          seq_loop cfg m ws' n sig
            (mkRunState res (S (rs_progress st)) (rs_running st) dispatched calls settled
               (rs_snapshots st ++ [res]))
      end
  end.

(** [for (let j = 1; j <= processedCount; j++) { const result = resultMap.get(j); if (result) orderedResults.push(result) }] *)
Definition ordered_results (resultMap : gmap nat FuzzResult) (processedCount : nat) : list FuzzResult :=
  flat_map (fun j => option_list (resultMap !! j)) (seq 1 processedCount).

(** [batchResults.forEach(...)]: fulfilled results enter the map under
    their [requestNum] and bump [processedCount]. *)
Definition record_settled (acc : gmap nat FuzzResult * nat) (out : SendOutcome)
    : gmap nat FuzzResult * nat :=
  match out with
  | Fulfilled r => (<[requestNum r := r]> acc.1, S acc.2)
  | Rejected _ _ => acc
  end.

Definition is_rejected (out : SendOutcome) : bool :=
  match out with Rejected _ _ => true | Fulfilled _ => false end.

(** Concurrent mode: [for (let i = 0; i < wordlist.length; i += threads)].
    [fuel] bounds the iterations ([wordlist.length] of them suffice for
    [threads >= 1]).  An [AbortError] only arises from the aborted
    signal, so a rejected batch member makes the next check see it. *)
Fixpoint conc_loop (cfg : FuzzConfig) (m : ReplacementMarker) (wordlist : list string)
    (threads fuel i : nat) (sig : bool) (resultMap : gmap nat FuzzResult)
    (processedCount : nat) (st : RunState) : RunState :=
  match fuel with
  | O => st
  | S fuel' =>
      if (i <? List.length wordlist)%nat then
        let sig := sig || stop i in
        if sig then st else
        let batch := firstn threads (skipn i wordlist) in
        let sent := imap (fun bi w => sendSingleRequest cfg (Some m) (i + bi + 1) w) batch in
        let outs := map snd sent in
        let '(resultMap', processedCount') := fold_left record_settled outs (resultMap, processedCount) in
        let orderedResults := ordered_results resultMap' processedCount' in
        let st' := mkRunState orderedResults processedCount' (rs_running st)
                     (rs_dispatched st ++ flat_map (fun x => option_list x.1) sent)
                     (rs_calls st ++ [imap (fun bi _ => i + bi + 1) batch])
                     (rs_settled st ++ [outs])
                     (rs_snapshots st ++ [orderedResults]) in
        conc_loop cfg m wordlist threads fuel' (i + threads) (sig || existsb is_rejected outs)
          resultMap' processedCount' st'
      else st
  end.

(** [startFuzzing]: [None] is an early return after an [alert]; the
    [finally] block sets [isRunning] back to false. *)
Definition startFuzzing (cfg : FuzzConfig) (replacementMarker : option ReplacementMarker)
    (threads : nat) (wordlistText : string) : option RunState :=
  let wordlist := parseWordlist wordlistText in
  match wordlist with
  | [] => None
  | _ =>
      match replacementMarker with
      | None => None
      | Some m =>
          let st := if Nat.eqb threads 1 then seq_loop cfg m wordlist 0 false initial_run
                    else conc_loop cfg m wordlist threads (List.length wordlist) 0 false ∅ 0 initial_run in
          Some (mkRunState (rs_results st) (rs_progress st) false (rs_dispatched st)
                  (rs_calls st) (rs_settled st) (rs_snapshots st))
      end
  end.

End FuzzRun.

(** A concrete [JSON.stringify] (members in stored order, numbers as
    their lexeme), used to run the fuzzer on concrete inputs. *)
Definition hex_digit (n : nat) : ascii :=
  if (n <? 10)%nat then ascii_of_nat (48 + n) else ascii_of_nat (87 + n).

Fixpoint escape_json (l : list ascii) : string :=
  match l with
  | [] => ""
  | c :: r =>
      let e :=
        if Ascii.eqb c "034"%char then String "\" (String "034" "")
        else if Ascii.eqb c "\"%char then String "\" (String "\" "")
        else if Ascii.eqb c "008"%char then "\b"
        else if Ascii.eqb c "012"%char then "\f"
        else if Ascii.eqb c "010"%char then "\n"
        else if Ascii.eqb c "013"%char then "\r"
        else if Ascii.eqb c "009"%char then "\t"
        else if (code c <? 32)%nat then
          "\u00" ++ String (hex_digit (code c / 16)) (String (hex_digit (code c mod 16)) "")
        else String c "" in
      e ++ escape_json r
  end.

Definition quote_json (s : string) : string :=
  String "034" (escape_json (list_ascii_of_string s) ++ String "034" "").

Fixpoint JSON_stringify (v : Json) : string :=
  match v with
  | JNull => "null"
  | JBool b => if b then "true" else "false"
  | JNum s => s
  | JStr s => quote_json s
  | JArr items =>
      "[" ++ (fix go (l : list Json) : string :=
                match l with
                | [] => ""
                | [x] => JSON_stringify x
                | x :: r => JSON_stringify x ++ "," ++ go r
                end) items ++ "]"
  | JObj ms =>
      "{" ++ (fix go (l : list (string * Json)) : string :=
                match l with
                | [] => ""
                | [(k, x)] => quote_json k ++ ":" ++ JSON_stringify x
                | (k, x) :: r => quote_json k ++ ":" ++ JSON_stringify x ++ "," ++ go r
                end) ms ++ "}"
  end.

Example JSON_stringify_ex :
  JSON_stringify (JObj [("query", JStr "{ a }"); ("variables", JObj [("x", JArr [JNum "1"; JNull])])])
  = dq "{'query':'{ a }','variables':{'x':[1,null]}}".
Proof. reflexivity. Qed.

(** The concrete environment of the end-to-end scenario: a direct target
    answering 200 to every request, never stopped. *)
Definition ok_fetch (n : nat) (req : HttpRequest) : FetchOutcome :=
  FResp 200 (dq "{'data':{}}") [("content-type", "application/json")].

Definition scenario_cfg : FuzzConfig :=
  mkFuzzConfig "http://localhost:4000/graphql" "" "{ users { id } }" "{}" false
    "http://localhost:8787/forward".

Definition scenario_marker : ReplacementMarker := mkMarker "users" 2 7.

Definition scenario_words : string := "adminUsers" ++ LF ++ "systemConfig".

Example scenario_two_rows :
  option_map (fun st => map (fun r => (requestNum r, wordlistItem r, statusCode r)) (rs_results st))
    (startFuzzing JSON_stringify (fun _ => "Unexpected token") ok_fetch (fun _ => 5%nat)
       (fun _ => false) scenario_cfg (Some scenario_marker) 1 scenario_words)
  = Some [(1%nat, "adminUsers", "200"); (2%nat, "systemConfig", "200")].
Proof. vm_compute. reflexivity. Qed.

Example scenario_two_rows_concurrent :
  option_map (fun st => (rs_calls st, map (fun r => (requestNum r, wordlistItem r)) (rs_results st),
                         map (fun d => json_get (dp_body d) "query") (rs_dispatched st)))
    (startFuzzing JSON_stringify (fun _ => "Unexpected token") ok_fetch (fun _ => 5%nat)
       (fun _ => false) scenario_cfg (Some scenario_marker) 2 scenario_words)
  = Some ([[1%nat; 2%nat]], [(1%nat, "adminUsers"); (2%nat, "systemConfig")],
          [Some (JStr "{ adminUsers { id } }"); Some (JStr "{ systemConfig { id } }")]).
Proof. vm_compute. reflexivity. Qed.

(* ------------------------------------------------------------------ *)
(** ** The forwarding proxy (src/server/proxy.mjs)                    *)
(* ------------------------------------------------------------------ *)

(** A value of [res.headers] in Node's [http]: a string, an array of
    strings (repeated headers such as [set-cookie]) or [undefined]. *)
Inductive HeaderValue : Type :=
| HVStr (s : string)
| HVList (vs : list string)
| HVUndefined.

(** What the upstream answered: [res.statusCode], [res.statusMessage],
    [res.headers] and the body decoded as UTF-8. *)
Record Upstream : Type := mkUpstream {
  up_statusCode : nat;
  up_statusMessage : string;
  up_headers : list (string * HeaderValue);
  up_text : string
}.

(** The argument object of [forward({ targetUrl, method, headers, body })]. *)
Record ForwardArgs : Type := mkForwardArgs {
  fa_targetUrl : Json;
  fa_method : Json;
  fa_headers : Json;
  fa_body : option string
}.

(** How the promise of [forward] settles: resolved once the upstream
    response has ended, or rejected (bad URL, connection refused, ...)
    with the error's message. *)
Inductive ForwardOutcome : Type :=
| FwdResolve (u : Upstream)
| FwdReject (message : string).

(** [v.join(', ')] *)
Fixpoint join (sep : string) (l : list string) : string :=
  match l with
  | [] => ""
  | [x] => x
  | x :: r => x ++ sep ++ join sep r
  end.

(** The loop [for (const [k, v] of Object.entries(res.headers))] of
    [forward]. *)
Definition forward_headers (hs : list (string * HeaderValue)) : list (string * Json) :=
  flat_map (fun kv =>
    match kv.2 with
    | HVList vs => [(kv.1, JStr (join ", " vs))]
    | HVStr v => [(kv.1, JStr v)]
    | HVUndefined => []
    end) hs.

(** The object [forward] resolves with. *)
Definition forward_result (u : Upstream) : Json :=
  JObj [("status", JNum (nat_to_string (up_statusCode u)));
        ("statusText", JStr (up_statusMessage u));
        ("headers", JObj (forward_headers (up_headers u)));
        ("body", JStr (up_text u))].

(** An incoming request: [req.method], [req.url], and the body
    [readBody] collects ([None] when the stream emits ['error']). *)
Record ProxyRequest : Type := mkProxyRequest {
  pr_method : string;
  pr_url : string;
  pr_body : option string
}.

(** What the handler answers: [res.statusCode] and the value passed to
    [JSON.stringify] for [res.end] ([None]: [res.end()] with no body). *)
Record ProxyResponse : Type := mkProxyResponse {
  px_status : nat;
  px_body : option Json
}.

(** [Buffer.byteLength] of a string of Latin-1 code units (UTF-8). *)
Definition byteLength (s : string) : nat :=
  fold_left (fun n c => n + (if (code c <? 128)%nat then 1 else 2))%nat (list_ascii_of_string s) 0%nat.

(** [a || b] on a property read. *)
Definition js_or (v : option Json) (d : Json) : Json :=
  match v with
  | Some x => if json_truthy x then x else d
  | None => d
  end.

(** [obj[k] = v] on a parsed object: an existing property keeps its place. *)
Definition json_set (ms : list (string * Json)) (k : string) (v : Json) : list (string * Json) :=
  if existsb (fun m => String.eqb m.1 k) ms
  then map (fun m => if String.eqb m.1 k then (k, v) else m) ms
  else ms ++ [(k, v)].

(** [if (!headers[lk] && !headers[uk]) headers[uk] = v]: [None] when the
    assignment throws, as it does on a primitive in a module (strict
    code); on an array it adds a property [JSON.stringify] leaves out. *)
Definition set_header_default (headers : Json) (lk uk : string) (v : Json) : option Json :=
  if json_truthy (js_or (json_get headers lk) (JBool false))
     || json_truthy (js_or (json_get headers uk) (JBool false))
  then Some headers
  else match headers with
       | JObj ms => Some (JObj (json_set ms uk v))
       | JArr _ => Some headers
       | _ => None
       end.

Section Proxy.

(** [JSON.stringify] of the payload's non-string [body]. *)
Variable stringify : Json -> string.
(** The engine's [SyntaxError] message for a text [JSON.parse] rejects. *)
Variable parse_error_message : string -> string.
(** The message of the error [readBody] rejects with. *)
Variable read_error_message : string.
(** The network behind [forward]. *)
Variable forward : ForwardArgs -> ForwardOutcome.

(** [String(e?.message || e)] for an error with message [msg]. *)
Definition error_text (msg : string) : string :=
  if String.eqb msg "" then "Error" else msg.

(** The [try] block of the handler: the error message it throws, or the
    [result] it sends. *)
Definition proxy_try (body : option string) : string + Json :=
  match body with
  | None => inl read_error_message
  | Some raw =>
  let text := if String.eqb raw "" then "{}" else raw in
  match JSON_parse text with
  | None => inl (parse_error_message text)
  | Some JNull => inl "Cannot read properties of null (reading 'url')"
  | Some payload =>
      let targetUrl := match json_get payload "url" with
                       | Some u => if json_truthy u then Some u else json_get payload "targetUrl"
                       | None => json_get payload "targetUrl"
                       end in
      match targetUrl with
      | Some t =>
          if negb (json_truthy t) then inl "Missing url" else
          let method := js_or (json_get payload "method") (JStr "POST") in
          let headers := js_or (json_get payload "headers") (JObj []) in
          let call (h : Json) (outBody : option string) : string + Json :=
            match forward (mkForwardArgs t method h outBody) with
            | FwdResolve u => inr (forward_result u)
            | FwdReject msg => inl msg
            end in
          match json_get payload "body" with
          | Some (JStr b) => call headers (Some b)
          | None => call headers None
          | Some b =>
              let outBody := stringify b in
              match set_header_default headers "content-length" "Content-Length"
                      (JNum (nat_to_string (byteLength outBody))) with
              | None => inl "Cannot create property 'Content-Length'"
              | Some h1 =>
                  match set_header_default h1 "content-type" "Content-Type"
                          (JStr "application/json") with
                  | None => inl "Cannot create property 'Content-Type'"
                  | Some h2 => call h2 (Some outBody)
                  end
              end
          end
      | None => inl "Missing url"
      end
  end
  end.

(** The [http.createServer] handler. *)
Definition proxy_handler (req : ProxyRequest) : ProxyResponse :=
  if String.eqb (pr_method req) "OPTIONS" then mkProxyResponse 204 None
  else if negb (String.eqb (pr_method req) "POST") then
    mkProxyResponse 405 (Some (JObj [("error", JStr "Method Not Allowed")]))
  else if negb (String.eqb (pr_url req) "/forward") then
    mkProxyResponse 404 (Some (JObj [("error", JStr "Not Found")]))
  else
    match proxy_try (pr_body req) with
    | inl msg => mkProxyResponse 500 (Some (JObj [("error", JStr (error_text msg))]))
    | inr result => mkProxyResponse 200 (Some result)
    end.

End Proxy.

(* ------------------------------------------------------------------ *)
(** ** The Performance Settings inputs (src/unnamed/part_002, Fuzzer)  *)
(* ------------------------------------------------------------------ *)

Local Open Scope Z_scope.

(** A JavaScript number as [parseInt] and [Math.min]/[Math.max] produce
    them: [NaN], the infinities, or a finite integer ([-0] is [Fin 0]:
    it behaves as [0] under [||], the only place one could reach). *)
Inductive JSNum : Type :=
| NaN
| PosInf
| NegInf
| Fin (z : Z).

(** The Number value of an integer: round to the nearest double, ties to
    even; a magnitude that rounds to [2^1024] is an infinity. *)
Definition round_int (z : Z) : JSNum :=
  let a := Z.abs z in
  if a <? 2 ^ 53 then Fin z else
  let sh := Z.log2 a - 52 in
  let q := Z.shiftr a sh in
  let r := a - Z.shiftl q sh in
  let half := Z.shiftl 1 (sh - 1) in
  let q' := if r >? half then q + 1
            else if r =? half then (if Z.odd q then q + 1 else q) else q in
  let v := Z.shiftl q' sh in
  if v >=? 2 ^ 1024 then (if z <? 0 then NegInf else PosInf) else Fin (Z.sgn z * v).

Definition digit_value (radix : Z) (c : ascii) : option Z :=
  match hex_val c with
  | Some d => if Z.of_nat d <? radix then Some (Z.of_nat d) else None
  | None => None
  end.

(** The longest prefix of radix digits, as a number, and its length. *)
Fixpoint take_radix_digits (radix : Z) (l : list ascii) (acc : Z) (n : nat) : Z * nat :=
  match l with
  | c :: r =>
      match digit_value radix c with
      | Some d => take_radix_digits radix r (acc * radix + d) (S n)
      | None => (acc, n)
      end
  | [] => (acc, n)
  end.

(** [parseInt(string)] with no radix. *)
Definition parseInt (s : string) : JSNum :=
  let l := drop_ws (list_ascii_of_string s) in
  let '(sign, l) := match l with
                    | "-"%char :: r => (-1, r)
                    | "+"%char :: r => (1, r)
                    | _ => (1, l)
                    end in
  let '(radix, l) := match l with
                     | "0"%char :: c :: r =>
                         if Ascii.eqb c "x"%char || Ascii.eqb c "X"%char then (16, r) else (10, l)
                     | _ => (10, l)
                     end in
  let '(v, n) := take_radix_digits radix l 0 0%nat in
  if Nat.eqb n 0 then NaN
  else if v =? 0 then Fin 0
  else round_int (sign * v).











(** What [e.target.value] of an [<input type="number">] can hold: the
    empty string, or a valid floating-point number (HTML: [-]? digits
    with an optional fraction, or a bare fraction, then an optional
    exponent) whose value is a finite double, as browsers sanitize it. *)
Fixpoint digit_run (l : list ascii) (acc : Z) (n : nat) : Z * nat * list ascii :=
  match l with
  | c :: r => if is_digit c then digit_run r (acc * 10 + Z.of_nat (code c - 48)) (S n) else (acc, n, l)
  | [] => (acc, n, l)
  end.

(** [Some (mantissa, digits of the mantissa, fraction digits, exponent)]
    for a valid floating-point number. *)
Definition parse_float_syntax (l : list ascii) : option (Z * nat * nat * Z) :=
  let l := match l with "-"%char :: r => r | _ => l end in
  let '(ip, ni, l) := digit_run l 0 0%nat in
  let frac := match l with
              | "."%char :: r =>
                  let '(fp, nf, l') := digit_run r 0 0%nat in
                  if Nat.eqb nf 0 then None else Some (ip * 10 ^ Z.of_nat nf + fp, nf, l')
              | _ => if Nat.eqb ni 0 then None else Some (ip, 0%nat, l)
              end in
  match frac with
  | None => None
  | Some (mant, nf, l) =>
      if andb (Nat.eqb ni 0) (Nat.eqb nf 0) then None else
      match l with
      | [] => Some (mant, (ni + nf)%nat, nf, 0)
      | c :: r =>
          if Ascii.eqb c "e"%char || Ascii.eqb c "E"%char then
            let '(sg, r) := match r with
                            | "-"%char :: r' => (-1, r')
                            | "+"%char :: r' => (1, r')
                            | _ => (1, r)
                            end in
            match digit_run r 0 0%nat with
            | (x, S _, []) => Some (mant, (ni + nf)%nat, nf, sg * x)
            | _ => None
            end
          else None
      end
  end.

(** The number of decimal digits of [z > 0] ([fuel] at least that many). *)
Fixpoint dec_digits (fuel : nat) (z : Z) : Z :=
  match fuel with
  | O => 0
  | S f => if z =? 0 then 0 else 1 + dec_digits f (z / 10)
  end.

(** [mant * 10^(exp - fracDigits)] rounds to a finite double: it is below
    [2^1024 - 2^970] in magnitude.  With [k] significant digits the value
    lies in [[10^(k+e-1), 10^(k+e))], which settles most cases without
    big powers. *)
Definition float_value_finite (mant : Z) (ndigits nf : nat) (x : Z) : bool :=
  let e := x - Z.of_nat nf in
  let k := dec_digits ndigits mant in
  let bound := 2 ^ 1024 - 2 ^ 970 in
  if mant =? 0 then true
  else if k + e <=? 308 then true
  else if k + e >=? 310 then false
  else if e >=? 0 then mant * 10 ^ e <? bound
  else mant <? bound * 10 ^ (- e).

Definition number_input_value (v : string) : bool :=
  String.eqb v "" ||
  match parse_float_syntax (list_ascii_of_string v) with
  | Some (mant, nd, nf, x) => float_value_finite mant nd nf x
  | None => false
  end.

Close Scope Z_scope.

Example parseInt_ex :
  parseInt " 42px" = Fin 42 /\ parseInt "-0x1F" = Fin (-31) /\ parseInt "abc" = NaN /\
  parseInt "9007199254740993" = Fin 9007199254740992%Z /\ parseInt "1.9e3" = Fin 1.
Proof. vm_compute. repeat split. Qed.

Example number_input_value_ex :
  number_input_value "" = true /\ number_input_value "12" = true /\
  number_input_value "-3.5e2" = true /\ number_input_value ".5" = true /\
  number_input_value "1." = false /\ number_input_value "abc" = false /\
  number_input_value "1e400" = false /\ number_input_value "1e308" = true /\
  number_input_value "0001" = true /\ number_input_value "1.8e308" = false.
Proof. vm_compute. repeat split. Qed.

(** Concrete inputs of the scenarios below. *)

(** Request 1 is aborted (Stop pressed while it is in flight); request 2
    had already failed with a network error. *)
Definition abort_then_fail_fetch (n : nat) (req : HttpRequest) : FetchOutcome :=
  if Nat.eqb n 1 then FThrow "AbortError" "signal is aborted without reason"
  else FThrow "TypeError" "Failed to fetch".

(** The status column of a settled outcome (the error name of a rejection). *)
Definition outcome_status (o : SendOutcome) : string :=
  match o with Fulfilled r => statusCode r | Rejected nm _ => nm end.




Definition scenario_conc_state : RunState :=
  match startFuzzing JSON_stringify (fun _ => "Unexpected token") ok_fetch (fun _ => 5%nat)
          (fun _ => false) scenario_cfg (Some scenario_marker) 2 scenario_words with
  | Some st => st
  | None => initial_run
  end.



(* ------------------------------------------------------------------ *)
(** ** Marking the replaced span (src/unnamed/part_002, Fuzzer:
       handleQuerySelection, markForReplacement, clearMarker)          *)
(* ------------------------------------------------------------------ *)

(** The [replacementMarker], [selectedText] and [selectionRange] state. *)
Record MarkerState : Type := mkMarkerState {
  ms_replacementMarker : option ReplacementMarker;
  ms_selectedText : string;
  ms_selectionRange : option (nat * nat)
}.

(** [view.state.doc.sliceString(from, to)] for the main selection
    [from <= to] of the editor's document. *)
Definition sliceString (doc : string) (from to : nat) : string :=
  substring from (to - from) doc.

(** [handleQuerySelection(view)] for a view showing [doc] with main
    selection [from..to]. *)
Definition handleQuerySelection (st : MarkerState) (doc : string) (from to : nat) : MarkerState :=
  let selectedText := sliceString doc from to in
  if negb (String.eqb selectedText "")
  then mkMarkerState (ms_replacementMarker st) selectedText (Some (from, to))
  else mkMarkerState (ms_replacementMarker st) "" None.

Definition markForReplacement (st : MarkerState) : MarkerState :=
  match ms_selectionRange st with
  | Some (from, to) =>
      if negb (String.eqb (ms_selectedText st) "")
      then mkMarkerState (Some (mkMarker (ms_selectedText st) from to))
             (ms_selectedText st) (ms_selectionRange st)
      else st
  | None => st
  end.

Definition clearMarker (st : MarkerState) : MarkerState := mkMarkerState None "" None.

(** [toggleRowExpansion(requestNum)] on the [expandedRows] set. *)
Definition toggleRowExpansion (prev : gset nat) (requestNum : nat) : gset nat :=
  if decide (requestNum ∈ prev) then prev ∖ {[ requestNum ]} else prev ∪ {[ requestNum ]}.

(* ------------------------------------------------------------------ *)
(** ** Word collection on the GraphQL page (src/unnamed/part_006:
       extractWordsFromJson, onImportWordlist)                         *)
(* ------------------------------------------------------------------ *)

(** [extractWordsFromJson(value, set)] on a value [JSON.parse] produced.
    [Object.entries] of a parsed object lists each key once, with the
    last of its duplicate values; the set only records which words were
    added, so the key is added at each occurrence and the value is walked
    at its last one. *)
Fixpoint extractWordsFromJson (value : Json) (set : gset string) : gset string :=
  match value with
  | JNull | JBool _ | JNum _ => set
  | JStr s => addWord set s
  | JArr items =>
      (fix go (l : list Json) (set : gset string) : gset string :=
         match l with
         | [] => set
         | v :: r => go r (extractWordsFromJson v set)
         end) items set
  | JObj ms =>
      (fix go (l : list (string * Json)) (set : gset string) : gset string :=
         match l with
         | [] => set
         | (k, v) :: r =>
             let set := addWord set k in
             go r (if existsb (fun m => String.eqb m.1 k) r then set
                   else extractWordsFromJson v set)
         end) ms set
  end.

(** [reader.onload] of [onImportWordlist]: [text.split(/\r?\n/)
    .map((w) => w.trim()).filter(Boolean)], each word added to a copy of
    [wordSet]. *)
Definition onImportWordlist (wordSet : gset string) (text : string) : gset string :=
  let words := List.filter (fun w => negb (String.eqb w "")) (map trim (split_lines text)) in
  fold_left addWord words wordSet.

(* ------------------------------------------------------------------ *)
(** ** Parse from cURL (src/unnamed/part_006, onParseCurl)             *)
(* ------------------------------------------------------------------ *)

(** The text up to the next ['] and what follows that quote. *)
Fixpoint take_until_quote (l : list ascii) (acc : list ascii) : option (list ascii * list ascii) :=
  match l with
  | [] => None
  | c :: r => if Ascii.eqb c "'"%char then Some (rev acc, r) else take_until_quote r (c :: acc)
  end.

(** A match of [<prefix>([^']+)'] starting at the head of [l]: the
    capture and the text after the match.  The greedy [[^']+] can only
    stop at the next quote, so no other split is possible. *)
Definition quoted_at (prefix : list ascii) (l : list ascii) : option (string * list ascii) :=
  match lit prefix l with
  | Some r =>
      match take_until_quote r [] with
      | Some ([], _) | None => None
      | Some (cap, rest) => Some (string_of_list_ascii cap, rest)
      end
  | None => None
  end.

(** A match of ['(https?:\/\/[^']+)'] at the head of [l]: the capture. *)
Definition url_at (l : list ascii) : option string :=
  match l with
  | "'"%char :: r =>
      match lit (list_ascii_of_string "http") r with
      | Some r1 =>
          let '(s, r2) := match r1 with
                          | "s"%char :: r2 => (["s"%char], r2)
                          | _ => ([], r1)
                          end in
          match lit (list_ascii_of_string "://") r2 with
          | Some r3 =>
              match take_until_quote r3 [] with
              | Some ([], _) | None => None
              | Some (cap, _) =>
                  Some ("http" ++ string_of_list_ascii s ++ "://" ++ string_of_list_ascii cap)
              end
          | None => None
          end
      | None => None
      end
  | _ => None
  end.

(** [s.match(re)] for a regex without the [g] flag: the leftmost match. *)
Fixpoint first_match {A} (f : list ascii -> option A) (l : list ascii) : option A :=
  match f l with
  | Some a => Some a
  | None => match l with [] => None | _ :: r => first_match f r end
  end.

(** [s.matchAll(re)] for [re = /<prefix>([^']+)'/g]: the captures of the
    successive leftmost matches, each search resuming after the previous
    match; [fuel] bounds the scan ([length l] suffices). *)
Fixpoint match_all (prefix : list ascii) (fuel : nat) (l : list ascii) : list string :=
  match fuel with
  | O => []
  | S f =>
      match l with
      | [] => []
      | _ :: r =>
          match quoted_at prefix l with
          | Some (cap, rest) => cap :: match_all prefix f rest
          | None => match_all prefix f r
          end
      end
  end.

(** [rawData.replace(/\\n/g, '\n')]: each backslash-n pair becomes a line feed. *)
Fixpoint unescape_newlines (l : list ascii) : list ascii :=
  match l with
  | "\"%char :: "n"%char :: r => "010"%char :: unescape_newlines r
  | c :: r => c :: unescape_newlines r
  | [] => []
  end.

(** What [onParseCurl] hands on: the URL it sets (none when the URL
    regex does not match), the new [headersRaw], and the text passed to
    [onPasteRaw] (none when the data regex does not match). *)
Record CurlImport : Type := mkCurlImport {
  ci_url : option string;
  ci_headersRaw : string;
  ci_data : option string
}.

(** [onParseCurl]; [None] is the early return for a command that does
    not start with ["curl "] (the modal closes, nothing else changes). *)
Definition onParseCurl (curlCommand : string) : option CurlImport :=
  let command := trim curlCommand in
  if negb (String.prefix "curl " command) then None
  else
    let l := list_ascii_of_string command in
    let headers := match_all (list_ascii_of_string "-H '") (List.length l) l in
    let dataMatch := first_match (quoted_at (list_ascii_of_string "--data-raw $'")) l in
    Some (mkCurlImport (first_match url_at l) (join LF headers)
            (option_map (fun m => string_of_list_ascii
                                    (unescape_newlines (list_ascii_of_string m.1))) dataMatch)).

(* ------------------------------------------------------------------ *)
(** ** Send on the GraphQL page (src/unnamed/part_006, onSend)         *)
(* ------------------------------------------------------------------ *)

(** The page fields [onSend] reads. *)
Record PageConfig : Type := mkPageConfig {
  pc_url : string;
  pc_headersRaw : string;
  pc_query : string;
  pc_variables : string;
  pc_useProxy : bool;
  pc_proxyUrl : string
}.

(** What [fetch] followed by reading the body gives on this page: a
    response (status, statusText, body text, header entries) or a thrown
    error (its [name] and [message]). *)
Inductive PageFetch : Type :=
| PResp (status : Z) (statusText : string) (body : string) (headers : list (string * string))
| PThrow (name message : string).

(** The state [onSend] leaves: [respStatus], the value whose
    [Object.entries] become [respHeaders], the value given to
    [setRespBody], the word set, and the one request [fetch] was called
    with. *)
Record PageView : Type := mkPageView {
  pv_status : string;
  pv_headers : Json;
  pv_body : Json;
  pv_wordSet : gset string;
  pv_request : HttpRequest
}.

(** [`${v}`] of a property read ([undefined] when absent). *)
Definition template (v : option Json) : string :=
  match v with
  | Some x => json_to_string x
  | None => "undefined"
  end.

Section OnSend.

(** [JSON.stringify(v)] and [JSON.stringify(v, null, 2)]. *)
Variable stringify : Json -> string.
Variable stringify_pretty : Json -> string.
(** The engine's [SyntaxError] message for a text [JSON.parse] rejects. *)
Variable parse_error_message : string -> string.
(** [extractWordsFromGraphQL(query, set)]: the [graphql] package's
    [parse] and [visit], outside this model. *)
Variable extractWordsFromGraphQL : string -> gset string -> gset string.
(** The network. *)
Variable fetch : HttpRequest -> PageFetch.

(** [safeJsonParse]: [JSON.parse] with a thrown error turned into
    [undefined]; a non-string argument is converted with [String]. *)
Definition safeJsonParse (text : string) : option Json := JSON_parse text.

(** The [catch (err)] block. *)
Definition request_failed (wordSet : gset string) (req : HttpRequest) (name message : string)
    : PageView :=
  mkPageView "Request failed" (JObj []) (JStr (if String.eqb message "" then name else message))
    wordSet req.

(** Word collection after a response: the query, the sent variables and
    the response body when it parsed as JSON. *)
Definition collect_words (q : string) (vars : Json) (asJson : option Json) (wordSet : gset string)
    : gset string :=
  let next := extractWordsFromGraphQL q wordSet in
  let next := extractWordsFromJson vars next in
  match asJson with
  | Some j => extractWordsFromJson j next
  | None => next
  end.

Definition onSend (pc : PageConfig) (wordSet : gset string) : PageView :=
  let headers := mergeDefaultJsonContentType (parseRawHeaders (pc_headersRaw pc)) in
  let vars := match safeJsonParse (pc_variables pc) with
              | Some v => v
              | None => JObj []
              end in
  let body := JObj [("query", JStr (pc_query pc)); ("variables", vars)] in
  if pc_useProxy pc then
    let req := mkHttpRequest (pc_proxyUrl pc) {[ "Content-Type" := "application/json" ]}
                 (stringify (JObj [("url", JStr (pc_url pc)); ("method", JStr "POST");
                                   ("headers", headers_to_json headers); ("body", body)])) in
    match fetch req with
    | PThrow nm msg => request_failed wordSet req nm msg
    | PResp _ _ text _ =>
        match JSON_parse text with
        | None => request_failed wordSet req "SyntaxError" (parse_error_message text)
        | Some JNull =>
            request_failed wordSet req "TypeError" "Cannot read properties of null (reading 'error')"
        | Some summary =>
            let err := js_or (json_get summary "error") (JBool false) in
            if json_truthy err then
              mkPageView ("Proxy Error: " ++ json_to_string err) (JObj []) (JStr "") wordSet req
            else
              let st := template (json_get summary "status") ++ " " ++
                        json_to_string (js_or (json_get summary "statusText") (JStr "")) in
              let statusText :=
                trim (if json_truthy (js_or (json_get summary "isError") (JBool false))
                      then "Error: " ++ st else st) in
              let hdrs := js_or (json_get summary "headers") (JObj []) in
              let bodyOut := js_or (json_get summary "body") (JStr "") in
              let asJson := safeJsonParse (json_to_string bodyOut) in
              let bodyOut := match asJson with
                             | Some j => JStr (stringify_pretty j)
                             | None => bodyOut
                             end in
              mkPageView statusText hdrs bodyOut (collect_words (pc_query pc) vars asJson wordSet) req
        end
    end
  else
    let req := mkHttpRequest (pc_url pc) headers (stringify body) in
    match fetch req with
    | PThrow nm msg => request_failed wordSet req nm msg
    | PResp status statusText text hs =>
        let asJson := safeJsonParse text in
        let bodyOut := match asJson with
                       | Some j => stringify_pretty j
                       | None => text
                       end in
        mkPageView (Z_to_string status ++ " " ++ statusText) (json_headers_of_entries hs)
          (JStr bodyOut) (collect_words (pc_query pc) vars asJson wordSet) req
    end.

End OnSend.

(* ------------------------------------------------------------------ *)
(** ** Observations the properties are stated with                     *)
(* ------------------------------------------------------------------ *)

(** The value of the last entry with key [k], if any. *)
Definition last_value (k : string) (es : list (string * string)) : option string :=
  last (map snd (List.filter (fun e => String.eqb e.1 k) es)).

(** The [requestBodyObj] [sendSingleRequest] builds, if it gets that far
    (it does not when [JSON.parse] rejects the variables text). *)
Definition request_body_obj (cfg : FuzzConfig) (mo : option ReplacementMarker) (w : string)
    : option Json :=
  let currentQuery := match mo with
                      | Some m => replaceTextInQuery (query cfg) m w
                      | None => query cfg
                      end in
  let varsText := if String.eqb (variables cfg) "" then "{}" else variables cfg in
  match JSON_parse varsText with
  | None => None
  | Some vars => Some (JObj [("query", JStr currentQuery); ("variables", vars)])
  end.

Definition fulfilled_record (out : SendOutcome) : option FuzzResult :=
  match out with Fulfilled r => Some r | Rejected _ _ => None end.

(** The records of the settled batches, in settlement-list order: what
    has completed so far. *)
Definition completed_records (settled : list (list SendOutcome)) : list FuzzResult :=
  flat_map (fun out => option_list (fulfilled_record out)) (concat settled).


(** The words a JSON value offers: every object key and every string,
    at any depth; of a key's duplicate values only the last one (the one
    [JSON.parse] keeps) is looked into. *)
Fixpoint json_words (v : Json) : list string :=
  match v with
  | JNull | JBool _ | JNum _ => []
  | JStr s => [s]
  | JArr items =>
      (fix go (l : list Json) : list string :=
         match l with
         | [] => []
         | x :: r => json_words x ++ go r
         end) items
  | JObj ms =>
      (fix go (l : list (string * Json)) : list string :=
         match l with
         | [] => []
         | (k, x) :: r =>
             k :: ((if existsb (fun m => String.eqb m.1 k) r then [] else json_words x) ++ go r)
         end) ms
  end%list.

Section ListObservations.

Local Open Scope list_scope.

(** The head of [l] is not JS whitespace (or [l] is empty). *)
Definition no_lead_ws (l : list ascii) : Prop :=
  match l with c :: _ => is_ws c = false | [] => True end.

Definition trim_list (l : list ascii) : list ascii := rev (drop_ws (rev (drop_ws l))).

(** A word of a wordlist: non-empty, already trimmed, with no line feed. *)
Definition wordlist_word (w : string) : Prop :=
  w <> "" /\ trim w = w /\ Forall (fun c => c <> "010"%char) (list_ascii_of_string w).

(** One [-H '<h>'] segment. *)
Definition header_seg (h : string) : list ascii :=
  list_ascii_of_string " -H '" ++ list_ascii_of_string h ++ ["'"%char].

(** Induction over JSON values reaching the members of arrays and objects. *)
Fixpoint Json_nested_ind (P : Json -> Prop)
    (Hnull : P JNull) (Hbool : forall b, P (JBool b)) (Hnum : forall s, P (JNum s))
    (Hstr : forall s, P (JStr s))
    (Harr : forall items, Forall P items -> P (JArr items))
    (Hobj : forall ms, Forall (fun m => P m.2) ms -> P (JObj ms)) (v : Json) : P v :=
  match v with
  | JNull => Hnull
  | JBool b => Hbool b
  | JNum s => Hnum s
  | JStr s => Hstr s
  | JArr items =>
      Harr items ((fix go (l : list Json) : Forall P l :=
                     match l with
                     | [] => @List.Forall_nil _ P
                     | x :: r => @List.Forall_cons _ P x r
                                   (Json_nested_ind P Hnull Hbool Hnum Hstr Harr Hobj x) (go r)
                     end) items)
  | JObj ms =>
      Hobj ms ((fix go (l : list (string * Json)) : Forall (fun m => P m.2) l :=
                  match l with
                  | [] => @List.Forall_nil _ (fun m => P m.2)
                  | (k, x) :: r => @List.Forall_cons _ (fun m => P m.2) (k, x) r
                                     (Json_nested_ind P Hnull Hbool Hnum Hstr Harr Hobj x) (go r)
                  end) ms)
  end.

End ListObservations.

(* ================================================================== *)
(** * Properties                                                       *)
(* ================================================================== *)

(** ** Header parsing *)

Lemma fold_parse_header_line_lookup (lines : list string) (m : HeaderMap) (k : string) :
  fold_left parse_header_line lines m !! k =
  match last_value k (omap header_line_entry lines) with
  | Some v => Some v
  | None => m !! k
  end.
Proof.
  revert m. induction lines as [|line lines IH]; intros m; simpl; [done|].
  rewrite IH. unfold last_value, parse_header_line.
  destruct (header_line_entry line) as [[k' v']|] eqn:He; simpl; [|done].
  destruct (String.eqb k' k) eqn:Hk; simpl.
  - apply String.eqb_eq in Hk. subst k'.
    rewrite last_cons. destruct (last _); [done|]. by rewrite lookup_insert_eq.
  - apply String.eqb_neq in Hk.
    destruct (last _); [done|]. by rewrite lookup_insert_ne.
Qed.




(** ** Default content type *)

Lemma ctKey_None (headers : HeaderMap) :
  ctKey headers = None <->
  (forall k v, headers !! k = Some v -> toLowerCase k <> "content-type").
Proof.
  unfold ctKey. split.
  - intros Hn k v Hk Hl.
    assert (Hin : In k (map fst (map_to_list headers))).
    { apply in_map_iff. exists (k, v). split; [done|].
      apply list_elem_of_In, elem_of_map_to_list. exact Hk. }
    pose proof (List.find_none _ _ Hn k Hin) as Hf. simpl in Hf.
    rewrite Hl in Hf. discriminate.
  - intros H. destruct (List.find _ _) as [k|] eqn:Hf; [|done].
    apply List.find_some in Hf as [Hin Hk].
    apply in_map_iff in Hin as [[k' v] [Hk' Hin]]. simpl in Hk'. subst k'.
    apply list_elem_of_In, elem_of_map_to_list in Hin.
    apply String.eqb_eq in Hk. exfalso. exact (H k v Hin Hk).
Qed.


(** ** Session wordlist tokenisation *)

Lemma fold_set_add_elem (l : list string) (S : gset string) (x : string) :
  x ∈ S \/ x ∈ l -> x ∈ fold_left set_add l S.
Proof.
  revert S. induction l as [|y l IH]; intros S H; simpl.
  - destruct H as [H|H]; [exact H|]. by apply not_elem_of_nil in H.
  - apply IH. unfold set_add.
    destruct H as [H|H]; [left; set_solver|].
    apply elem_of_cons in H as [->|H]; [left; set_solver|by right].
Qed.

(** C8: tokenising "getUserData" into the session set adds "get",
    "user", "data" and "getuserdata"; tokenising "user_profile" adds
    "user", "profile" and "user_profile"; whatever the set held before. *)
Theorem addWord_examples (S : gset string) :
  (forall x, x ∈ ["get"; "user"; "data"; "getuserdata"] -> x ∈ addWord S "getUserData") /\
  (forall x, x ∈ ["user"; "profile"; "user_profile"] -> x ∈ addWord S "user_profile").
Proof.
  split; intros x Hx; unfold addWord; simpl String.eqb; cbv iota beta.
  - rewrite splitWordsTokenize_ex1.
    replace (toLowerCase "getUserData") with "getuserdata" by reflexivity.
    apply fold_set_add_elem. unfold set_add.
    apply elem_of_cons in Hx as [->|Hx]; [by right; left|].
    apply elem_of_cons in Hx as [->|Hx]; [by right; right; left|].
    apply elem_of_cons in Hx as [->|Hx]; [by right; right; right; left|].
    apply elem_of_cons in Hx as [->|Hx]; [left; set_solver|].
    by apply not_elem_of_nil in Hx.
  - rewrite splitWordsTokenize_ex2.
    replace (toLowerCase "user_profile") with "user_profile" by reflexivity.
    apply fold_set_add_elem. unfold set_add.
    apply elem_of_cons in Hx as [->|Hx]; [by right; left|].
    apply elem_of_cons in Hx as [->|Hx]; [by right; right; left|].
    apply elem_of_cons in Hx as [->|Hx]; [left; set_solver|].
    by apply not_elem_of_nil in Hx.
Qed.

(** ** The fuzz loop *)

Lemma map_fmap_eq {A B} (f : A -> B) (l : list A) : map f l = f <$> l.
Proof. induction l as [|x l IH]; simpl; [done|]. by rewrite IH. Qed.

Lemma proxy_result_err_name (summary : Json) (nm msg : string) :
  proxy_result summary = inl (nm, msg) -> nm = "TypeError".
Proof.
  unfold proxy_result, proxy_success_result.
  intros H; repeat (case_match; simplify_eq; try done).
Qed.

Section BatchShape.

Variable stringify : Json -> string.
Variable parse_error_message : string -> string.
Variable fetch : nat -> HttpRequest -> FetchOutcome.
Variable elapsed : nat -> nat.
Variable cfg : FuzzConfig.
Variable m : ReplacementMarker.
Variable W : list string.

Local Abbreviation send := (sendSingleRequest stringify parse_error_message fetch elapsed).

(** The batch [wordlist.slice(i, i + threads)] is sent as requests
    [i + 1 .. i + len], request [j] with word [j] of the list. *)
Lemma batch_sent (N i : nat) :
  imap (fun bi w => send cfg (Some m) (i + bi + 1) w) (firstn N (skipn i W)) =
  map (fun j => send cfg (Some m) j (nth (pred j) W "")) (seq (S i) (min N (length W - i))).
Proof.
  rewrite !map_fmap_eq. apply list_eq. intros k.
  rewrite list_lookup_fmap, list_lookup_imap, lookup_take, lookup_drop.
  destruct (decide (k < N)) as [HkN|HkN].
  - destruct (W !! (i + k)) as [w|] eqn:Hw; simpl.
    + assert (Hlt : i + k < length W) by (apply lookup_lt_Some in Hw; exact Hw).
      rewrite (proj2 (lookup_seq (S i) _ k (S i + k))) by lia. simpl.
      replace (pred (S (i + k))) with (i + k) by lia.
      rewrite (nth_lookup_Some _ _ _ _ Hw).
      by replace (i + k + 1) with (S (i + k)) by lia.
    + apply lookup_ge_None in Hw. rewrite lookup_seq_ge by lia. done.
  - rewrite lookup_seq_ge by lia. done.
Qed.

Lemma batch_numbers (N i : nat) :
  imap (fun bi (_ : string) => i + bi + 1) (firstn N (skipn i W)) =
  seq (S i) (min N (length W - i)).
Proof.
  apply list_eq. intros k. rewrite list_lookup_imap.
  destruct (firstn N (skipn i W) !! k) as [w|] eqn:Hk; simpl.
  - apply lookup_lt_Some in Hk. rewrite length_take, length_drop in Hk.
    rewrite (proj2 (lookup_seq (S i) _ k (S i + k))) by lia. f_equal. lia.
  - apply lookup_ge_None in Hk. rewrite length_take, length_drop in Hk.
    rewrite lookup_seq_ge by lia. done.
Qed.

End BatchShape.

Section RunProofs.

Local Open Scope list_scope.

Variable stringify : Json -> string.
Variable parse_error_message : string -> string.
Variable fetch : nat -> HttpRequest -> FetchOutcome.
Variable elapsed : nat -> nat.
Variable stop : nat -> bool.

Local Abbreviation send := (sendSingleRequest stringify parse_error_message fetch elapsed).

(** Whatever the network does, the dispatched request carries the
    [requestBodyObj] built from the configuration and the word. *)
Lemma send_dispatch (cfg : FuzzConfig) (mo : option ReplacementMarker) (n : nat) (w : string) :
  option_map (fun d => (dp_num d, dp_word d, dp_body d)) (send cfg mo n w).1 =
  option_map (fun b => (n, w, b)) (request_body_obj cfg mo w).
Proof.
  unfold sendSingleRequest, request_body_obj.
  destruct (JSON_parse _); simpl; [|done].
  destruct (useProxy cfg); simpl.
  - destruct (fetch _ _); simpl; [|done].
    destruct (JSON_parse body); simpl; [|done].
    destruct (proxy_result _) as [[nm msg]|[[[sc cl] rb] rh]]; done.
  - destruct (fetch _ _); done.
Qed.

Hypothesis fetch_no_abort : forall n req msg, fetch n req <> FThrow "AbortError" msg.

Lemma catch_result_fulfilled (n : nat) (w nm msg : string) :
  nm <> "AbortError" ->
  exists r, catch_result elapsed n w nm msg = Fulfilled r /\ requestNum r = n.
Proof.
  intros Hnm. unfold catch_result.
  destruct (String.eqb_spec nm "AbortError"); [contradiction|].
  eexists; split; reflexivity.
Qed.

(** Without an abort, every request settles as a fulfilled record
    carrying its own request number. *)
Lemma send_fulfilled (cfg : FuzzConfig) (mo : option ReplacementMarker) (n : nat) (w : string) :
  exists r, (send cfg mo n w).2 = Fulfilled r /\ requestNum r = n.
Proof.
  unfold sendSingleRequest.
  destruct (JSON_parse _); simpl; [|apply catch_result_fulfilled; discriminate].
  destruct (useProxy cfg); simpl.
  - destruct (fetch _ _) eqn:Hf; simpl.
    + destruct (JSON_parse body); simpl; [|apply catch_result_fulfilled; discriminate].
      destruct (proxy_result _) as [[nm msg]|[[[sc cl] rb] rh]] eqn:Hp; simpl.
      * apply proxy_result_err_name in Hp. subst nm. apply catch_result_fulfilled. discriminate.
      * eexists; split; reflexivity.
    + apply catch_result_fulfilled. intros ->. exact (fetch_no_abort _ _ _ Hf).
  - destruct (fetch _ _) eqn:Hf; simpl.
    + eexists; split; reflexivity.
    + apply catch_result_fulfilled. intros ->. exact (fetch_no_abort _ _ _ Hf).
Qed.

Variable cfg : FuzzConfig.
Variable m : ReplacementMarker.
Variable W : list string.

Definition dummy_result : FuzzResult := mkFuzzResult 0 "" "" 0 "" JNull JNull "".

(** The record request number [j] settles with (word [j] of the list). *)
Definition Rj (j : nat) : FuzzResult :=
  match (send cfg (Some m) j (nth (pred j) W "")).2 with
  | Fulfilled r => r
  | Rejected _ _ => dummy_result
  end.

Lemma send_Rj (i k : nat) (w : string) :
  W !! (i + k) = Some w ->
  (send cfg (Some m) (i + k + 1) w).2 = Fulfilled (Rj (i + k + 1)).
Proof.
  intros Hw. unfold Rj.
  replace (pred (i + k + 1)) with (i + k) by lia.
  rewrite (nth_lookup_Some _ _ _ _ Hw).
  destruct (send_fulfilled cfg (Some m) (i + k + 1) w) as [r [-> _]]. done.
Qed.

Lemma requestNum_Rj (j : nat) : requestNum (Rj j) = j.
Proof.
  unfold Rj. destruct (send_fulfilled cfg (Some m) j (nth (pred j) W "")) as [r [-> Hr]].
  exact Hr.
Qed.

Lemma fold_record_settled (js : list nat) (mp : gmap nat FuzzResult) (p : nat) :
  fold_left record_settled (map (fun j => Fulfilled (Rj j)) js) (mp, p) =
  (fold_left (fun acc j => <[j := Rj j]> acc) js mp, p + length js).
Proof.
  revert mp p. induction js as [|j js IH]; intros mp p; simpl; [by rewrite Nat.add_0_r|].
  rewrite requestNum_Rj, IH. f_equal. lia.
Qed.

Lemma lookup_fold_insert (js : list nat) (mp : gmap nat FuzzResult) (x : nat) :
  fold_left (fun acc j => <[j := Rj j]> acc) js mp !! x =
  if decide (x ∈ js) then Some (Rj x) else mp !! x.
Proof.
  revert mp. induction js as [|j js IH]; intros mp; cbn [fold_left].
  - rewrite decide_False; [done|]. apply not_elem_of_nil.
  - rewrite IH. destruct (decide (x ∈ js)) as [Hin|Hin].
    + rewrite decide_True; [done|]. apply elem_of_cons. by right.
    + destruct (decide (x = j)) as [->|Hne].
      * rewrite lookup_insert_eq, decide_True; [done|]. apply elem_of_cons. by left.
      * rewrite lookup_insert_ne by congruence. rewrite decide_False; [done|].
        rewrite elem_of_cons. intros [H|H]; contradiction.
Qed.

Lemma ordered_results_full (mp : gmap nat FuzzResult) (c : nat) :
  (forall x, 1 <= x /\ x <= c -> mp !! x = Some (Rj x)) ->
  ordered_results mp c = map Rj (seq 1 c).
Proof.
  intros H. unfold ordered_results.
  assert (Hg : forall js, (forall x, x ∈ js -> mp !! x = Some (Rj x)) ->
            flat_map (fun j => option_list (mp !! j)) js = map Rj js).
  { induction js as [|j js IH]; intros Hjs; simpl; [done|].
    rewrite (Hjs j) by (apply elem_of_cons; by left). simpl. f_equal.
    apply IH. intros x Hx. apply Hjs. apply elem_of_cons. by right. }
  apply Hg. intros x Hx. apply elem_of_seq in Hx. apply H. lia.
Qed.

Lemma send_body (cfg' : FuzzConfig) (mo : option ReplacementMarker) (n : nat) (w : string) :
  option_map dp_body (send cfg' mo n w).1 = request_body_obj cfg' mo w.
Proof.
  pose proof (send_dispatch cfg' mo n w) as H.
  destruct ((send cfg' mo n w).1), (request_body_obj cfg' mo w); simpl in *; congruence.
Qed.

Lemma send_Rj' (j : nat) : (send cfg (Some m) j (nth (pred j) W "")).2 = Fulfilled (Rj j).
Proof.
  unfold Rj. destruct (send_fulfilled cfg (Some m) j (nth (pred j) W "")) as [r [-> _]]. done.
Qed.

Variable N : nat.
Hypothesis N_pos : 1 <= N.
Hypothesis stop_never : forall i, stop i = false.

Definition conc_inv (c : nat) (mp : gmap nat FuzzResult) (p : nat) (st : RunState) : Prop :=
  concat (rs_calls st) = seq 1 c /\
  Forall (fun b => 0 < length b /\ length b <= N) (rs_calls st) /\
  rs_settled st = map (map (fun j => Fulfilled (Rj j))) (rs_calls st) /\
  length (rs_snapshots st) = length (rs_calls st) /\
  (forall k s, rs_snapshots st !! k = Some s -> s = map Rj (concat (firstn (S k) (rs_calls st)))) /\
  (forall x, mp !! x = if decide (1 <= x /\ x <= c) then Some (Rj x) else None) /\
  p = c /\
  rs_results st = map Rj (seq 1 c) /\
  map dp_body (rs_dispatched st) =
    flat_map (fun j => option_list (request_body_obj cfg (Some m) (nth (pred j) W ""))) (seq 1 c).

Lemma existsb_fulfilled (js : list nat) :
  existsb is_rejected (map (fun j => Fulfilled (Rj j)) js) = false.
Proof. induction js as [|j js IH]; simpl; done. Qed.

Lemma dispatched_bodies (js : list nat) :
  map dp_body (flat_map (fun x => option_list x.1)
                 (map (fun j => send cfg (Some m) j (nth (pred j) W "")) js)) =
  flat_map (fun j => option_list (request_body_obj cfg (Some m) (nth (pred j) W ""))) js.
Proof.
  induction js as [|j js IH]; simpl; [done|].
  rewrite map_app, IH. f_equal.
  pose proof (send_body cfg (Some m) j (nth (pred j) W "")) as H.
  destruct ((send cfg (Some m) j (nth (pred j) W "")).1), (request_body_obj _ _ _);
    simpl in *; congruence.
Qed.

Lemma conc_inv_init : conc_inv 0 ∅ 0 initial_run.
Proof.
  unfold conc_inv, initial_run; simpl.
  split; [done|]. split; [constructor|]. split; [done|]. split; [done|].
  split; [intros k s Hk; by rewrite lookup_nil in Hk|].
  split; [intros x; rewrite lookup_empty, decide_False; [done|lia]|].
  done.
Qed.

Lemma conc_loop_inv (fuel i : nat) (mp : gmap nat FuzzResult) (p : nat) (st : RunState) :
  length W <= i + fuel ->
  conc_inv (min i (length W)) mp p st ->
  exists mp' p', conc_inv (length W) mp' p'
    (conc_loop stringify parse_error_message fetch elapsed stop cfg m W N fuel i false mp p st).
Proof.
  revert i mp p st. induction fuel as [|fuel IH]; intros i mp p st Hfuel Hinv.
  - exists mp, p. simpl. replace (length W) with (min i (length W)) at 1 by lia. exact Hinv.
  - cbn [conc_loop]. destruct (i <? length W)%nat eqn:Hlt; cycle 1.
    { apply Nat.ltb_ge in Hlt. exists mp, p.
      replace (length W) with (min i (length W)) at 1 by lia. exact Hinv. }
    apply Nat.ltb_lt in Hlt. rewrite stop_never. cbn [orb].
    rewrite batch_sent, batch_numbers, map_map.
    rewrite (map_ext _ _ send_Rj').
    rewrite fold_record_settled, existsb_fulfilled. cbn [orb].
    set (len := min N (length W - i)).
    assert (Hlen : min (i + N) (length W) = i + len) by (unfold len; lia).
    replace (min i (length W)) with i in Hinv by lia.
    destruct Hinv as (Hcalls & Hsz & Hset & Hsnl & Hsn & Hmp & -> & Hres & Hdisp).
    apply IH; [lia|]. rewrite Hlen.
    rewrite length_seq.
    assert (Hmp' : forall x,
      fold_left (fun acc j => <[j := Rj j]> acc) (seq (S i) len) mp !! x =
      if decide (1 <= x /\ x <= i + len) then Some (Rj x) else None).
    { intros x. rewrite lookup_fold_insert, Hmp.
      destruct (decide (x ∈ seq (S i) len)) as [Hx|Hx];
        [apply elem_of_seq in Hx|rewrite elem_of_seq in Hx];
        repeat case_decide; try done; lia. }
    assert (Hord : ordered_results (fold_left (fun acc j => <[j := Rj j]> acc) (seq (S i) len) mp)
                     (i + len) = map Rj (seq 1 (i + len))).
    { apply ordered_results_full. intros x Hx. rewrite Hmp'. by rewrite decide_True. }
    assert (Hseq : seq 1 (i + len) = seq 1 i ++ seq (S i) len)
      by (rewrite seq_app; f_equal).
    unfold conc_inv; simpl. rewrite Hord.
    repeat split.
    + rewrite concat_app, Hcalls. simpl. by rewrite app_nil_r, Hseq.
    + apply Forall_app. split; [exact Hsz|]. apply Forall_singleton.
      rewrite length_seq. unfold len. lia.
    + by rewrite Hset, map_app.
    + rewrite !length_app, Hsnl. done.
    + intros k s Hk. apply lookup_snoc_Some in Hk as [[Hk Hks]|[Hk <-]].
      * rewrite take_app_le by lia. by apply Hsn.
      * rewrite Hk, Hsnl, take_ge by (rewrite length_app; simpl; lia).
        rewrite concat_app, Hcalls. simpl. by rewrite app_nil_r, Hseq.
    + exact Hmp'.
    + rewrite map_app, Hdisp, dispatched_bodies, <- flat_map_app. by rewrite Hseq.
Qed.








End RunProofs.




Lemma completed_records_fulfilled (g : nat -> FuzzResult) (bs : list (list nat)) :
  completed_records (map (map (fun j => Fulfilled (g j))) bs) = map g (concat bs).
Proof.
  unfold completed_records. rewrite <- concat_map.
  induction (concat bs) as [|j js IH]; simpl; [done|]. by rewrite IH.
Qed.

Lemma seq_strongly_sorted (a n : nat) : StronglySorted lt (seq a n).
Proof.
  revert a. induction n as [|n IH]; intros a; simpl; constructor; [apply IH|].
  apply Forall_forall. intros x Hx. apply elem_of_seq in Hx. lia.
Qed.

Lemma strongly_sorted_app_l {A} (R : A -> A -> Prop) (l1 l2 : list A) :
  StronglySorted R (l1 ++ l2) -> StronglySorted R l1.
Proof.
  induction l1 as [|x l1 IH]; simpl; intros H; [constructor|].
  inversion H as [|? ? Hs Hf]; subst. constructor; [by apply IH|].
  apply Forall_app in Hf. by destruct Hf.
Qed.

Lemma strongly_sorted_requestNum (g : nat -> FuzzResult) (l : list nat) :
  (forall j, requestNum (g j) = j) -> StronglySorted lt l ->
  StronglySorted (fun a b => requestNum a < requestNum b) (map g l).
Proof.
  intros Hg H. induction H as [|j l Hs IH Hf]; simpl; constructor; [exact IH|].
  apply Forall_forall. intros r Hr. rewrite map_fmap_eq in Hr.
  apply list_elem_of_fmap in Hr as [j' [-> Hj']].
  rewrite !Hg. exact (proj1 (Forall_forall _ _) Hf j' Hj').
Qed.



(** ** C1 and C2: the fuzz loop *)

(** C1: in bounded-concurrency mode ([threads] = N > 1) over a wordlist of
    length L, with no abort and Stop never pressed, the request numbers
    handed to [sendSingleRequest] are exactly 1..L, in consecutive batches
    of 1..N requests; after every batch the displayed [results] are
    exactly the records completed so far (a permutation of them), in
    strictly ascending [requestNum] order; at the end all L records are
    shown in that order and [isRunning] is false. *)
Theorem startFuzzing_concurrent_batches
    (stringify : Json -> string) (parse_error_message : string -> string)
    (fetch : nat -> HttpRequest -> FetchOutcome) (elapsed : nat -> nat) (stop : nat -> bool)
    (cfg : FuzzConfig) (m : ReplacementMarker) (threads : nat) (wordlistText : string)
    (st : RunState) :
  (forall n req msg, fetch n req <> FThrow "AbortError" msg) ->
  (forall i, stop i = false) ->
  1 < threads ->
  startFuzzing stringify parse_error_message fetch elapsed stop cfg (Some m) threads wordlistText
    = Some st ->
  concat (rs_calls st) = seq 1 (length (parseWordlist wordlistText)) /\
  Forall (fun batch => 0 < length batch /\ length batch <= threads) (rs_calls st) /\
  length (rs_snapshots st) = length (rs_calls st) /\
  (forall k shown, rs_snapshots st !! k = Some shown ->
     shown ≡ₚ completed_records (firstn (S k) (rs_settled st)) /\
     StronglySorted (fun a b => requestNum a < requestNum b) shown) /\
  rs_results st ≡ₚ completed_records (rs_settled st) /\
  StronglySorted (fun a b => requestNum a < requestNum b) (rs_results st) /\
  length (rs_results st) = length (parseWordlist wordlistText) /\
  rs_running st = false.
Proof.
  intros Hf Hs Ht Hrun. unfold startFuzzing in Hrun.
  remember (parseWordlist wordlistText) as W eqn:HW. clear HW.
  destruct W as [|w0 ws]; [discriminate|].
  rewrite (proj2 (Nat.eqb_neq threads 1)) in Hrun by lia.
  destruct (conc_loop_inv stringify parse_error_message fetch elapsed stop Hf cfg m (w0 :: ws)
              threads ltac:(lia) Hs (length (w0 :: ws)) 0 ∅ 0 initial_run ltac:(lia)
              (conc_inv_init stringify parse_error_message fetch elapsed cfg m (w0 :: ws) threads ltac:(lia)))
    as (mp' & p' & Hinv).
  set (st0 := conc_loop _ _ _ _ _ _ _ _ _ _ _ _ _ _ _) in Hrun, Hinv. clearbody st0.
  injection Hrun as <-. simpl.
  destruct Hinv as (Hcalls & Hsz & Hset & Hsnl & Hsn & _ & _ & Hres & _).
  pose proof (requestNum_Rj stringify parse_error_message fetch elapsed Hf cfg m (w0 :: ws))
    as HRj.
  split; [exact Hcalls|]. split; [exact Hsz|]. split; [exact Hsnl|].
  split; [|split; [|split; [|split]]].
  - intros k shown Hk. apply Hsn in Hk as ->.
    rewrite Hset, firstn_map, completed_records_fulfilled. split; [done|].
    apply strongly_sorted_requestNum; [exact HRj|].
    apply (strongly_sorted_app_l _ _ (concat (skipn (S k) (rs_calls st0)))).
    rewrite <- concat_app, firstn_skipn, Hcalls. apply seq_strongly_sorted.
  - by rewrite Hres, Hset, completed_records_fulfilled, Hcalls.
  - rewrite Hres. apply strongly_sorted_requestNum; [exact HRj|]. apply seq_strongly_sorted.
  - by rewrite Hres, length_map, length_seq.
  - done.
Qed.


Lemma proxy_try_inr (stringify : Json -> string) (parse_error_message : string -> string)
    (read_error_message : string) (forward : ForwardArgs -> ForwardOutcome)
    (body : option string) (res : Json) :
  proxy_try stringify parse_error_message read_error_message forward body = inr res ->
  exists u, res = forward_result u.
Proof.
  unfold proxy_try. intros H. repeat (case_match; simplify_eq; try done); eauto.
Qed.

Lemma forward_result_no_isError (u : Upstream) : json_get (forward_result u) "isError" = None.
Proof. reflexivity. Qed.

(** ** C3: variables that are not JSON *)

(** C3: with the variables text "{limit: 10}" (not JSON), whatever the
    rest of the configuration and the network, [sendSingleRequest]
    builds no request body and sends nothing ([JSON.parse] throws inside
    the [try]); the iteration yields the error row "Error: <message of
    the SyntaxError>" with an empty [requestBody]. *)
Theorem sendSingleRequest_unparsable_variables
    (stringify : Json -> string) (parse_error_message : string -> string)
    (fetch : nat -> HttpRequest -> FetchOutcome) (elapsed : nat -> nat)
    (url headersRaw query proxyUrl : string) (useProxy : bool)
    (mo : option ReplacementMarker) (n : nat) (w : string) :
  sendSingleRequest stringify parse_error_message fetch elapsed
    (mkFuzzConfig url headersRaw query "{limit: 10}" useProxy proxyUrl) mo n w =
  (None, Fulfilled (mkFuzzResult n
           ("Error: " ++ (if String.eqb (parse_error_message "{limit: 10}") "" then "Unknown"
                          else parse_error_message "{limit: 10}"))
           "0" (elapsed n) "" (JStr "") (JObj []) w)).
Proof.
  unfold sendSingleRequest. cbv zeta.
  replace (if String.eqb (variables (mkFuzzConfig url headersRaw query "{limit: 10}" useProxy proxyUrl)) ""
           then "{}" else variables (mkFuzzConfig url headersRaw query "{limit: 10}" useProxy proxyUrl))
    with "{limit: 10}" by reflexivity.
  rewrite JSON_parse_ex2. reflexivity.
Qed.

(** ** C4: abort and error rows in concurrent mode *)

(** C4: in concurrent mode (2 threads, words "adminUsers" and
    "systemConfig"), request 1 aborted and request 2 failing with a
    network error: request 2 settles as the row "Error: Failed to fetch",
    yet the displayed results stay empty, since the ordered list is read
    for request numbers 1..processedCount = 1 only; the run ends with
    [isRunning] false. *)
Theorem startFuzzing_error_row_hidden_after_abort :
  option_map (fun st => (rs_results st, rs_running st, map (map outcome_status) (rs_settled st)))
    (startFuzzing JSON_stringify (fun _ => "Unexpected token") abort_then_fail_fetch (fun _ => 3%nat)
       (fun _ => false) scenario_cfg (Some scenario_marker) 2 scenario_words)
  = Some ([], false, [["AbortError"; "Error: Failed to fetch"]]).
Proof. vm_compute. reflexivity. Qed.

(** ** C5: the proxy's responses *)

(** C5: whatever the request and whatever the upstream does, no response
    body of the proxy has an [isError] member; a 200 response is exactly
    [{status, statusText, headers, body}] of [forward]; a 500 response
    (every exception of the [try] block) is exactly [{error}], with no
    [isError] and no [status]. *)
Theorem proxy_handler_has_no_isError
    (stringify : Json -> string) (parse_error_message : string -> string)
    (read_error_message : string) (forward : ForwardArgs -> ForwardOutcome) (req : ProxyRequest) :
  (forall b, px_body (proxy_handler stringify parse_error_message read_error_message forward req)
               = Some b -> json_get b "isError" = None) /\
  (px_status (proxy_handler stringify parse_error_message read_error_message forward req) = 200 ->
     exists u, px_body (proxy_handler stringify parse_error_message read_error_message forward req)
               = Some (forward_result u)) /\
  (px_status (proxy_handler stringify parse_error_message read_error_message forward req) = 500 ->
     exists msg, px_body (proxy_handler stringify parse_error_message read_error_message forward req)
               = Some (JObj [("error", JStr msg)])).
Proof.
  unfold proxy_handler.
  destruct (String.eqb (pr_method req) "OPTIONS"); simpl.
  { split; [intros b Hb; discriminate|split; intros H; discriminate]. }
  destruct (String.eqb (pr_method req) "POST"); simpl.
  2: { split; [intros b Hb; injection Hb as <-; reflexivity|split; intros H; discriminate]. }
  destruct (String.eqb (pr_url req) "/forward"); simpl.
  2: { split; [intros b Hb; injection Hb as <-; reflexivity|split; intros H; discriminate]. }
  destruct (proxy_try _ _ _ _ _) as [msg|res] eqn:Ht; simpl.
  - split; [intros b Hb; injection Hb as <-; reflexivity|split; intros H; [discriminate|eauto]].
  - destruct (proxy_try_inr _ _ _ _ _ _ Ht) as [u ->].
    split; [intros b Hb; injection Hb as <-; apply forward_result_no_isError|].
    split; intros H; [eauto|discriminate].
Qed.

(** ** C9: proxy-reported errors *)



(** ** C10: the Performance Settings *)






(** ** Trimming and line splitting *)

Section TrimFacts.

Local Open Scope list_scope.


Lemma drop_ws_suffix (l : list ascii) : exists p, l = p ++ drop_ws l.
Proof.
  induction l as [|c l IH]; simpl; [by exists []|].
  destruct (is_ws c); [|by exists []].
  destruct IH as [p Hp]. exists (c :: p). simpl. by rewrite <- Hp.
Qed.

Lemma drop_ws_head (l : list ascii) : no_lead_ws (drop_ws l).
Proof.
  induction l as [|c l IH]; simpl; [done|].
  destruct (is_ws c) eqn:Hc; [exact IH|exact Hc].
Qed.

Lemma drop_ws_id (l : list ascii) : no_lead_ws l -> drop_ws l = l.
Proof. destruct l as [|c l]; simpl; [done|]. intros ->. done. Qed.

Lemma Forall_drop_ws (P : ascii -> Prop) (l : list ascii) :
  Forall P l -> Forall P (drop_ws l).
Proof.
  destruct (drop_ws_suffix l) as [p Hp]. intros H. rewrite Hp in H.
  by apply Forall_app in H as [_ H].
Qed.


Lemma trim_list_eq (s : string) : list_ascii_of_string (trim s) = trim_list (list_ascii_of_string s).
Proof. unfold trim, trim_list. apply list_ascii_of_string_of_list_ascii. Qed.

Lemma no_lead_ws_app (l1 l2 : list ascii) : l1 <> [] -> no_lead_ws (l1 ++ l2) -> no_lead_ws l1.
Proof. destruct l1; simpl; [done|]. done. Qed.

(** [trim]'s result starts and ends with a non-whitespace character. *)
Lemma trim_list_trimmed (l : list ascii) :
  no_lead_ws (trim_list l) /\ no_lead_ws (rev (trim_list l)).
Proof.
  unfold trim_list. rewrite rev_involutive. split; [|apply drop_ws_head].
  set (a := drop_ws l). pose proof (drop_ws_head l) as Ha. fold a in Ha.
  destruct (drop_ws_suffix (rev a)) as [p Hp].
  destruct (drop_ws (rev a)) as [|c b] eqn:Hb; [done|].
  apply (f_equal (@rev ascii)) in Hp. rewrite rev_involutive, rev_app_distr in Hp.
  rewrite Hp in Ha.
  assert (Hne : rev (c :: b) <> []) by (simpl; intros H; by apply app_eq_nil in H as [_ ?]).
  exact (no_lead_ws_app _ _ Hne Ha).
Qed.

Lemma trim_list_id (l : list ascii) :
  no_lead_ws l -> no_lead_ws (rev l) -> trim_list l = l.
Proof.
  intros H1 H2. unfold trim_list. rewrite (drop_ws_id l H1), (drop_ws_id _ H2).
  apply rev_involutive.
Qed.

Lemma trim_idem (s : string) : trim (trim s) = trim s.
Proof.
  assert (H : list_ascii_of_string (trim (trim s)) = list_ascii_of_string (trim s)).
  { rewrite (trim_list_eq (trim s)), (trim_list_eq s).
    destruct (trim_list_trimmed (list_ascii_of_string s)) as [H1 H2].
    by apply trim_list_id. }
  apply (f_equal string_of_list_ascii) in H.
  by rewrite !string_of_list_ascii_of_string in H.
Qed.

Lemma Forall_trim (P : ascii -> Prop) (s : string) :
  Forall P (list_ascii_of_string s) -> Forall P (list_ascii_of_string (trim s)).
Proof.
  intros H. rewrite trim_list_eq. unfold trim_list.
  apply Forall_rev, Forall_drop_ws, Forall_rev, Forall_drop_ws, H.
Qed.

Lemma list_ascii_of_string_app (s1 s2 : string) :
  list_ascii_of_string (s1 ++ s2) = list_ascii_of_string s1 ++ list_ascii_of_string s2.
Proof. induction s1 as [|c s1 IH]; simpl; [done|]. by rewrite IH. Qed.

Lemma split_lines_go_app (l r acc : list ascii) :
  Forall (fun c => c <> "010"%char) l ->
  split_lines_go (l ++ r) acc = split_lines_go r (rev l ++ acc).
Proof.
  revert acc. induction l as [|c l IH]; intros acc Hl; simpl; [done|].
  apply Forall_cons in Hl as [Hc Hl].
  destruct (Ascii.eqb_spec c "010"%char); [contradiction|].
  rewrite IH by exact Hl. by rewrite <- app_assoc.
Qed.

(** No piece of [split_lines] holds a line feed. *)
Lemma split_lines_no_lf (s : string) :
  Forall (fun piece => Forall (fun c => c <> "010"%char) (list_ascii_of_string piece)) (split_lines s).
Proof.
  unfold split_lines.
  assert (G : forall l acc, Forall (fun c => c <> "010"%char) acc ->
    Forall (fun piece => Forall (fun c => c <> "010"%char) (list_ascii_of_string piece))
      (split_lines_go l acc)).
  { induction l as [|c l IH]; intros acc Hacc; simpl.
    - constructor; [|constructor]. rewrite list_ascii_of_string_of_list_ascii.
      by apply Forall_rev.
    - destruct (Ascii.eqb_spec c "010"%char) as [->|Hc].
      + constructor; [|apply IH; constructor].
        rewrite list_ascii_of_string_of_list_ascii. apply Forall_rev.
        destruct acc as [|a acc']; [constructor|].
        destruct (Ascii.eqb_spec a "013"%char) as [->|Ha]; [by apply Forall_cons in Hacc as [_ ?]|].
        destruct a as [[] [] [] [] [] [] [] []]; try exact Hacc; contradiction.
      + apply IH. by constructor. }
  apply G. constructor.
Qed.


Lemma trimmed_last_not_cr (w : string) :
  w <> "" -> trim w = w -> exists c l, list_ascii_of_string w = l ++ [c] /\ c <> "013"%char.
Proof.
  intros Hne Ht.
  destruct (trim_list_trimmed (list_ascii_of_string w)) as [_ H2].
  rewrite <- trim_list_eq, Ht in H2.
  destruct (rev (list_ascii_of_string w)) as [|c rl] eqn:Hr.
  - destruct w; [done|]. simpl in Hr. destruct (rev (list_ascii_of_string w)); discriminate.
  - exists c, (rev rl). split.
    + rewrite <- (rev_involutive (list_ascii_of_string w)), Hr. done.
    + intros ->. simpl in H2. discriminate.
Qed.

Lemma split_lines_join (ws : list string) :
  ws <> [] -> Forall wordlist_word ws -> split_lines (join LF ws) = ws.
Proof.
  unfold split_lines. induction ws as [|w ws IH]; intros Hne Hws; [done|].
  apply Forall_cons in Hws as [[Hw1 [Hw2 Hw3]] Hws].
  destruct (trimmed_last_not_cr w Hw1 Hw2) as (c & l & Hl & Hc).
  destruct ws as [|w' ws'].
  - simpl. rewrite <- (app_nil_r (list_ascii_of_string w)).
    rewrite split_lines_go_app by exact Hw3. simpl.
    rewrite app_nil_r, rev_involutive, string_of_list_ascii_of_string. done.
  - change (join LF (w :: w' :: ws')) with ((w ++ LF ++ join LF (w' :: ws'))%string).
    assert (IH' := IH ltac:(discriminate) Hws).
    set (t := join LF (w' :: ws')) in *. clearbody t.
    rewrite !list_ascii_of_string_app.
    rewrite split_lines_go_app by exact Hw3. simpl.
    rewrite app_nil_r, Hl, rev_app_distr. simpl.
    replace (match c with
             | "013"%char => rev l
             | _ => c :: rev l
             end) with (c :: rev l).
    2:{ destruct c as [[] [] [] [] [] [] [] []]; try reflexivity; contradiction. }
    change (c :: rev l) with (rev [c] ++ rev l). rewrite <- rev_app_distr, rev_involutive, <- Hl.
    rewrite string_of_list_ascii_of_string, IH'. done.
Qed.

End TrimFacts.

Section WordlistFacts.

Local Open Scope list_scope.

Lemma filter_trim_words (l : list string) :
  Forall (fun piece => Forall (fun c => c <> "010"%char) (list_ascii_of_string piece)) l ->
  Forall wordlist_word (List.filter (fun line => negb (String.eqb line "")) (map trim l)).
Proof.
  induction l as [|p l IH]; intros H; simpl; [constructor|].
  apply Forall_cons in H as [Hp H].
  destruct (String.eqb_spec (trim p) "") as [He|He]; simpl; [by apply IH|].
  constructor; [|by apply IH].
  split; [exact He|]. split; [apply trim_idem|]. by apply Forall_trim.
Qed.

Lemma filter_trim_id (ws : list string) :
  Forall wordlist_word ws ->
  List.filter (fun line => negb (String.eqb line "")) (map trim ws) = ws.
Proof.
  induction ws as [|w ws IH]; intros H; simpl; [done|].
  apply Forall_cons in H as [[Hw1 [Hw2 _]] H].
  rewrite Hw2. destruct (String.eqb_spec w ""); [contradiction|]. simpl. f_equal. by apply IH.
Qed.

Lemma parseWordlist_words (text : string) : Forall wordlist_word (parseWordlist text).
Proof. unfold parseWordlist. apply filter_trim_words, split_lines_no_lf. Qed.

Lemma parseWordlist_join (ws : list string) :
  Forall wordlist_word ws -> parseWordlist (join LF ws) = ws.
Proof.
  intros H. destruct ws as [|w ws]; [reflexivity|].
  unfold parseWordlist. rewrite (split_lines_join (w :: ws)); [|discriminate|exact H].
  by apply filter_trim_id.
Qed.

End WordlistFacts.

Section HeaderFacts.

Local Open Scope list_scope.

Lemma last_value_entry (k v : string) (es : list (string * string)) :
  last_value k es = Some v -> (k, v) ∈ es.
Proof.
  unfold last_value. intros H.
  apply last_Some_elem_of in H.
  apply list_elem_of_fmap in H as [[k' v'] [Hv Hin]]. simpl in Hv. subst v'.
  apply list_elem_of_In, filter_In in Hin as [Hin Hk]. simpl in Hk.
  apply String.eqb_eq in Hk. subst k'. by apply list_elem_of_In.
Qed.

Lemma Forall_substring (P : ascii -> Prop) (n m : nat) (s : string) :
  Forall P (list_ascii_of_string s) -> Forall P (list_ascii_of_string (substring n m s)).
Proof.
  revert n m. induction s as [|c s IH]; intros n m H.
  - destruct n, m; simpl; constructor.
  - simpl in H. apply Forall_cons in H as [Hc H].
    destruct n, m; simpl; [constructor| |by apply IH|by apply IH].
    constructor; [exact Hc|]. by apply IH.
Qed.

Lemma indexOf_colon_prefix (s : string) (i : nat) :
  indexOf_colon s = Some i -> Forall (fun c => c <> ":"%char) (list_ascii_of_string (substring 0 i s)).
Proof.
  revert i. induction s as [|c s IH]; intros i H; simpl in H; [discriminate|].
  destruct (Ascii.eqb_spec c ":"%char).
  - injection H as <-. constructor.
  - destruct (indexOf_colon s) as [j|] eqn:Hj; simpl in H; [|discriminate].
    injection H as <-. simpl. constructor; [exact n|]. by apply IH.
Qed.

(** A kept header line gives a trimmed, colon-free key and a trimmed
    value, neither holding a character the line did not hold. *)
Lemma header_line_entry_shape (line k v : string) (P : ascii -> Prop) :
  Forall P (list_ascii_of_string line) ->
  header_line_entry line = Some (k, v) ->
  trim k = k /\ trim v = v /\ Forall (fun c => c <> ":"%char) (list_ascii_of_string k) /\
  Forall P (list_ascii_of_string k) /\ Forall P (list_ascii_of_string v).
Proof.
  intros HP. unfold header_line_entry.
  destruct (String.eqb (trim line) "") ; [discriminate|].
  destruct (starts_with_method_ws (trim line)); [discriminate|].
  destruct (indexOf_colon (trim line)) as [idx|] eqn:Hi; [|discriminate].
  destruct (String.eqb (trim (substring 0 idx (trim line))) "") eqn:E1; [discriminate|].
  destruct (String.eqb (toLowerCase (trim (substring 0 idx (trim line)))) "content-length") eqn:E2;
    [discriminate|].
  intros H; injection H as <- <-.
  pose proof (Forall_trim _ _ HP) as HPt.
  split; [apply trim_idem|]. split; [apply trim_idem|].
  split; [apply Forall_trim, indexOf_colon_prefix, Hi|].
  split; apply Forall_trim, Forall_substring, HPt.
Qed.

End HeaderFacts.

Section SubstringFacts.

Lemma substring_empty (n m : nat) : substring n m "" = "".
Proof. destruct n, m; reflexivity. Qed.

Lemma substring_app (n a b : nat) (s : string) :
  substring n (a + b) s = substring n a s ++ substring (n + a) b s.
Proof.
  revert n a. induction s as [|c s IH]; intros n a.
  - by rewrite !substring_empty.
  - destruct n as [|n].
    + destruct a as [|a]; [done|]. cbn. rewrite (IH 0 a). done.
    + simpl. apply IH.
Qed.

Lemma substring_all (s : string) : substring 0 (String.length s) s = s.
Proof. induction s as [|c s IH]; simpl; [done|]. by rewrite IH. Qed.

Lemma length_substring (n m : nat) (s : string) :
  String.length (substring n m s) = Nat.min m (String.length s - n).
Proof.
  revert n m. induction s as [|c s IH]; intros n m.
  - rewrite substring_empty. simpl. lia.
  - destruct n as [|n], m as [|m]; simpl; rewrite ?IH; try lia.
    destruct (String.length s - n); lia.
Qed.

Lemma string_app_assoc (a b c : string) : a ++ (b ++ c) = (a ++ b) ++ c.
Proof. induction a as [|x a IH]; [reflexivity|exact (f_equal (String x) IH)]. Qed.

Lemma string_length_app (a b : string) : String.length (a ++ b) = String.length a + String.length b.
Proof. induction a as [|x a IH]; [reflexivity|exact (f_equal S IH)]. Qed.

(** Splicing the marked span's own text back in gives the query back. *)
Lemma replaceTextInQuery_own_text (q t : string) (from to : nat) :
  from <= to <= String.length q ->
  replaceTextInQuery q (mkMarker t from to) (substring from (to - from) q) = q.
Proof.
  intros H. unfold replaceTextInQuery. simpl.
  rewrite string_app_assoc.
  replace (substring 0 from q ++ substring from (to - from) q)
    with (substring 0 (from + (to - from)) q) by (rewrite substring_app; done).
  replace (from + (to - from)) with to by lia.
  rewrite <- substring_app. replace (to + (String.length q - to)) with (String.length q) by lia.
  apply substring_all.
Qed.

Lemma replaceTextInQuery_length (q t w : string) (from to : nat) :
  from <= to <= String.length q ->
  String.length (replaceTextInQuery q (mkMarker t from to) w) =
  String.length q - (to - from) + String.length w.
Proof.
  intros H. unfold replaceTextInQuery. simpl.
  rewrite !string_length_app, !length_substring. lia.
Qed.

End SubstringFacts.

Lemma toggle_cases (prev : gset nat) (n : nat) :
  (n ∈ prev -> toggleRowExpansion prev n = prev ∖ {[ n ]}) /\
  (n ∉ prev -> toggleRowExpansion prev n = prev ∪ {[ n ]}).
Proof.
  unfold toggleRowExpansion. split; intros H.
  - by rewrite decide_True.
  - by rewrite decide_False.
Qed.

Section SequentialRun.

Local Open Scope list_scope.

Variable stringify : Json -> string.
Variable parse_error_message : string -> string.
Variable fetch : nat -> HttpRequest -> FetchOutcome.
Variable elapsed : nat -> nat.
Variable stop : nat -> bool.

Hypothesis no_abort : forall n req msg, fetch n req <> FThrow "AbortError" msg.
Hypothesis no_stop : forall i, stop i = false.

Local Abbreviation send := (sendSingleRequest stringify parse_error_message fetch elapsed).




End SequentialRun.

(** ** Word collection *)

Section WordFacts.

Local Open Scope list_scope.


Lemma fold_set_add_iff (l : list string) (S : gset string) (x : string) :
  x ∈ fold_left set_add l S <-> x ∈ S \/ x ∈ l.
Proof.
  revert S. induction l as [|y l IH]; intros S; simpl.
  - split; [by left|]. intros [H|H]; [exact H|by apply not_elem_of_nil in H].
  - rewrite IH. unfold set_add. rewrite elem_of_union, elem_of_singleton, elem_of_cons. tauto.
Qed.

Lemma addWord_iff (S : gset string) (w x : string) :
  x ∈ addWord S w <-> x ∈ S \/ (w <> "" /\ (x = toLowerCase w \/ x ∈ splitWordsTokenize w)).
Proof.
  unfold addWord. destruct (String.eqb_spec w "") as [->|Hw].
  - split; [by left|]. intros [H|[H _]]; [exact H|contradiction].
  - rewrite fold_set_add_iff. unfold set_add. rewrite elem_of_union, elem_of_singleton. tauto.
Qed.

Lemma fold_addWord_iff (ws : list string) (S : gset string) (x : string) :
  x ∈ fold_left addWord ws S <->
  x ∈ S \/ exists w, w ∈ ws /\ w <> "" /\ (x = toLowerCase w \/ x ∈ splitWordsTokenize w).
Proof.
  revert S. induction ws as [|w ws IH]; intros S; simpl.
  - split; [by left|]. intros [H|(w & Hw & _)]; [exact H|by apply not_elem_of_nil in Hw].
  - rewrite IH, addWord_iff. split.
    + intros [[H|H]|(w' & Hw' & H)]; [by left|right; exists w; split; [apply elem_of_cons; by left|exact H]|].
      right. exists w'. split; [apply elem_of_cons; by right|exact H].
    + intros [H|(w' & Hw' & H)]; [by left; left|].
      apply elem_of_cons in Hw' as [->|Hw']; [by left; right|].
      right. exists w'. done.
Qed.

Lemma extractWordsFromJson_fold (v : Json) :
  forall S, extractWordsFromJson v S = fold_left addWord (json_words v) S.
Proof.
  induction v as [| b | s | s | items IH | ms IH] using Json_nested_ind; intros S; try reflexivity.
  - simpl. revert S. induction IH as [|x r Hx Hr IHr]; intros S; simpl; [done|].
    rewrite fold_left_app, Hx. apply IHr.
  - simpl. revert S. induction IH as [|[k x] r Hx Hr IHr]; intros S; simpl; [done|].
    rewrite fold_left_app. destruct (existsb _ r); simpl; [apply IHr|].
    rewrite Hx. apply IHr.
Qed.

End WordFacts.

(** ** The proxy's JSON helpers *)

Section ProxyFacts.

Local Open Scope list_scope.




End ProxyFacts.

(** ** Regex scans of [onParseCurl] *)

Section CurlFacts.

Local Open Scope list_scope.

Lemma take_until_quote_length (l acc cap rest : list ascii) :
  take_until_quote l acc = Some (cap, rest) -> length rest < length l.
Proof.
  revert acc. induction l as [|c l IH]; intros acc H; simpl in H; [discriminate|].
  destruct (Ascii.eqb c "'"%char).
  - injection H as _ <-. simpl. lia.
  - apply IH in H. simpl. lia.
Qed.

Lemma lit_length (w l r : list ascii) : lit w l = Some r -> length r <= length l.
Proof.
  revert l. induction w as [|c w IH]; intros l H; simpl in H.
  - injection H as <-. lia.
  - destruct l as [|d l]; [discriminate|].
    destruct (Ascii.eqb c d); [|discriminate]. apply IH in H. simpl. lia.
Qed.

Lemma quoted_at_length (p l : list ascii) (cap : string) (rest : list ascii) :
  quoted_at p l = Some (cap, rest) -> length rest < length l.
Proof.
  unfold quoted_at. destruct (lit p l) as [r|] eqn:Hl; [|discriminate].
  destruct (take_until_quote r []) as [[[|c cs] rest']|] eqn:Ht; try discriminate.
  intros H; injection H as _ <-.
  apply take_until_quote_length in Ht. apply lit_length in Hl. lia.
Qed.

Lemma match_all_fuel (p : list ascii) (f1 f2 : nat) (l : list ascii) :
  length l <= f1 -> length l <= f2 -> match_all p f1 l = match_all p f2 l.
Proof.
  revert f2 l. induction f1 as [|f1 IH]; intros f2 l H1 H2.
  - destruct l; [|simpl in H1; lia]. destruct f2; reflexivity.
  - destruct l as [|c r]; [destruct f2; reflexivity|].
    destruct f2 as [|f2]; [simpl in H2; lia|]. simpl.
    destruct (quoted_at p (c :: r)) as [[cap rest]|] eqn:Hq.
    + apply quoted_at_length in Hq. f_equal. apply IH; simpl in *; lia.
    + apply IH; simpl in *; lia.
Qed.

Lemma take_until_quote_free (h rest acc : list ascii) :
  Forall (fun c => c <> "'"%char) h ->
  take_until_quote (h ++ "'"%char :: rest) acc = Some (rev acc ++ h, rest).
Proof.
  revert acc. induction h as [|c h IH]; intros acc Hh; simpl.
  - by rewrite app_nil_r.
  - apply Forall_cons in Hh as [Hc Hh].
    destruct (Ascii.eqb_spec c "'"%char); [contradiction|].
    rewrite IH by exact Hh. simpl. by rewrite <- app_assoc.
Qed.


Lemma match_all_segs (hs : list string) (fuel : nat) :
  Forall (fun h => h <> "" /\ Forall (fun c => c <> "'"%char) (list_ascii_of_string h)) hs ->
  length (List.concat (map header_seg hs)) <= fuel ->
  match_all (list_ascii_of_string "-H '") fuel (List.concat (map header_seg hs)) = hs.
Proof.
  revert fuel. induction hs as [|h hs IH]; intros fuel Hhs Hf.
  - destruct fuel; reflexivity.
  - apply Forall_cons in Hhs as [[Hne Hq] Hhs].
    assert (Hl : length (List.concat (map header_seg hs)) + 2 <= fuel)
      by (cbn [List.concat map] in Hf; rewrite length_app in Hf;
          assert (length (header_seg h) >= 2) by (unfold header_seg; rewrite !length_app; simpl; lia);
          lia).
    cbn [List.concat map].
    clear Hf. unfold header_seg at 1.
    destruct fuel as [|fuel]; [lia|].
    cbn [app list_ascii_of_string match_all].
    replace (quoted_at _ (" "%char :: _)) with (@None (string * list ascii)) by reflexivity.
    destruct fuel as [|fuel]; [lia|].
    cbn [match_all].
    unfold quoted_at. cbn [lit list_ascii_of_string Ascii.eqb Bool.eqb].
    rewrite <- app_assoc. simpl.
    rewrite take_until_quote_free by exact Hq. simpl.
    destruct (list_ascii_of_string h) as [|c cs] eqn:Hh.
    { destruct h; [contradiction|discriminate]. }
    rewrite <- Hh, string_of_list_ascii_of_string. f_equal.
    rewrite (match_all_fuel _ fuel (length (List.concat (map header_seg hs)))).
    + apply IH; [exact Hhs|lia].
    + lia.
    + lia.
Qed.

Lemma list_concat_strings (f : string -> string) (hs : list string) :
  list_ascii_of_string (String.concat "" (map f hs)) =
  List.concat (map (fun h => list_ascii_of_string (f h)) hs).
Proof.
  induction hs as [|h hs IH]; [done|].
  destruct hs as [|h' hs'].
  - simpl. by rewrite app_nil_r.
  - change (String.concat "" (map f (h :: h' :: hs'))) with
      ((f h ++ "" ++ String.concat "" (map f (h' :: hs')))%string).
    rewrite !list_ascii_of_string_app, IH. done.
Qed.

End CurlFacts.

(** ** Further helpers *)

Lemma substring_zero (n : nat) (s : string) : substring n 0 s = "".
Proof. revert n. induction s as [|c s IH]; intros [|n]; simpl; auto. Qed.

Lemma string_eq_of_list (s t : string) :
  list_ascii_of_string s = list_ascii_of_string t -> s = t.
Proof.
  intros H. apply (f_equal string_of_list_ascii) in H.
  by rewrite !string_of_list_ascii_of_string in H.
Qed.

Lemma ctKey_Some (headers : HeaderMap) (k : string) :
  ctKey headers = Some k -> exists v, headers !! k = Some v /\ toLowerCase k = "content-type".
Proof.
  unfold ctKey. intros Hf. apply List.find_some in Hf as [Hin Hk].
  apply in_map_iff in Hin as [[k' v] [Hk' Hin]]. simpl in Hk'. subst k'.
  apply list_elem_of_In, elem_of_map_to_list in Hin.
  exists v. split; [exact Hin|]. by apply String.eqb_eq in Hk.
Qed.

Lemma merge_has_ct (headers : HeaderMap) :
  exists k v, mergeDefaultJsonContentType headers !! k = Some v /\ toLowerCase k = "content-type".
Proof.
  unfold mergeDefaultJsonContentType. destruct (ctKey headers) as [k|] eqn:Hc.
  - apply ctKey_Some in Hc as [v Hv]. by exists k, v.
  - exists "Content-Type", "application/json". split; [|reflexivity].
    rewrite lookup_union_r; [apply lookup_singleton_eq|].
    destruct (headers !! "Content-Type") as [v|] eqn:Hv; [|done].
    exfalso. exact (proj1 (ctKey_None headers) Hc _ _ Hv eq_refl).
Qed.

Lemma extract_grows (v : Json) (S : gset string) : S ⊆ extractWordsFromJson v S.
Proof. intros x Hx. rewrite extractWordsFromJson_fold, fold_addWord_iff. by left. Qed.

Lemma collect_words_grows (extractWordsFromGraphQL : string -> gset string -> gset string)
    (q : string) (vars : Json) (aj : option Json) (S : gset string) :
  (forall q T, T ⊆ extractWordsFromGraphQL q T) ->
  S ⊆ collect_words extractWordsFromGraphQL q vars aj S.
Proof.
  intros Hg. unfold collect_words.
  assert (H1 : S ⊆ extractWordsFromJson vars (extractWordsFromGraphQL q S))
    by (etransitivity; [apply Hg|apply extract_grows]).
  destruct aj as [j|]; [|exact H1].
  etransitivity; [exact H1|apply extract_grows].
Qed.


Lemma proxy_try_inr_forward (stringify : Json -> string) (pem : string -> string) (rem : string)
    (forward : ForwardArgs -> ForwardOutcome) (body : option string) (r : Json) :
  proxy_try stringify pem rem forward body = inr r ->
  exists args u, forward args = FwdResolve u /\ r = forward_result u.
Proof.
  unfold proxy_try. intros H.
  repeat (case_match; simplify_eq/=; try discriminate); eauto.
Qed.

(* ================================================================== *)
(** * Further properties of the code *)

(** X1: [parseWordlist] yields words that are non-empty, trimmed and
    free of line feeds; joining such words with line feeds and parsing
    gives them back, so parsing a joined parse changes nothing. *)
Theorem parseWordlist_normal_form (text : string) :
  Forall wordlist_word (parseWordlist text) /\
  (forall ws, Forall wordlist_word ws -> parseWordlist (join LF ws) = ws) /\
  parseWordlist (join LF (parseWordlist text)) = parseWordlist text.
Proof.
  split; [apply parseWordlist_words|]. split; [apply parseWordlist_join|].
  apply parseWordlist_join, parseWordlist_words.
Qed.

(** X2: every entry of a parsed header map has a trimmed key without
    colon or line feed and a trimmed value without line feed. *)
Theorem parseRawHeaders_entry_shape (raw k v : string) :
  parseRawHeaders raw !! k = Some v ->
  trim k = k /\ trim v = v /\
  Forall (fun c => c <> ":"%char) (list_ascii_of_string k) /\
  Forall (fun c => c <> "010"%char) (list_ascii_of_string k) /\
  Forall (fun c => c <> "010"%char) (list_ascii_of_string v).
Proof.
  unfold parseRawHeaders. rewrite fold_parse_header_line_lookup, lookup_empty.
  destruct (last_value k _) as [v'|] eqn:Hl; [|discriminate]. intros H; injection H as <-.
  apply last_value_entry in Hl. apply list_elem_of_omap in Hl as [line [Hin He]].
  apply (header_line_entry_shape line k v' (fun c => c <> "010"%char)); [|exact He].
  pose proof (split_lines_no_lf raw) as Hs. rewrite Forall_forall in Hs. by apply Hs.
Qed.

(** X3: after [mergeDefaultJsonContentType] the map always has a key
    equal to "content-type" case-insensitively, and merging again changes
    nothing. *)
Theorem mergeDefaultJsonContentType_idem (headers : HeaderMap) :
  mergeDefaultJsonContentType (mergeDefaultJsonContentType headers) =
    mergeDefaultJsonContentType headers /\
  exists k v, mergeDefaultJsonContentType headers !! k = Some v /\ toLowerCase k = "content-type".
Proof.
  pose proof (merge_has_ct headers) as Hct. split; [|exact Hct].
  destruct Hct as (k & v & Hk & Hl).
  unfold mergeDefaultJsonContentType at 1.
  destruct (ctKey (mergeDefaultJsonContentType headers)) eqn:Hc; [done|].
  exfalso. exact (proj1 (ctKey_None _) Hc k v Hk Hl).
Qed.

(** X4: selecting [from..to] of the document and marking it: an empty
    selection leaves the marker as it was; a non-empty one sets the
    marker to the selected text at [from..to], splicing that text back
    gives the document, and splicing any word [w] changes the length by
    [length w - (to - from)]. *)
Theorem markForReplacement_selection (st : MarkerState) (doc : string) (from to : nat) :
  from <= to <= String.length doc ->
  (from = to ->
     ms_replacementMarker (markForReplacement (handleQuerySelection st doc from to)) =
     ms_replacementMarker st) /\
  (from < to -> exists m,
     ms_replacementMarker (markForReplacement (handleQuerySelection st doc from to)) = Some m /\
     marker_text m = sliceString doc from to /\ marker_from m = from /\ marker_to m = to /\
     replaceTextInQuery doc m (marker_text m) = doc /\
     forall w, String.length (replaceTextInQuery doc m w) =
               String.length doc - (to - from) + String.length w).
Proof.
  intros Hb. unfold markForReplacement, handleQuerySelection. split.
  - intros <-. unfold sliceString. rewrite Nat.sub_diag, substring_zero. reflexivity.
  - intros Hlt.
    assert (Hne : sliceString doc from to <> "").
    { intros He. apply (f_equal String.length) in He. unfold sliceString in He.
      rewrite length_substring in He. simpl in He. lia. }
    destruct (String.eqb_spec (sliceString doc from to) "") as [|_]; [contradiction|]. simpl.
    destruct (String.eqb_spec (sliceString doc from to) "") as [|_]; [contradiction|]. simpl.
    eexists. split; [reflexivity|]. simpl. split; [done|]. split; [done|]. split; [done|].
    split.
    + apply replaceTextInQuery_own_text. exact Hb.
    + intros w. apply replaceTextInQuery_length. exact Hb.
Qed.

(** X5: toggling a row twice restores the expanded set; a toggle flips
    the row's membership and leaves every other row as it was. *)
Theorem toggleRowExpansion_involutive (prev : gset nat) (n : nat) :
  toggleRowExpansion (toggleRowExpansion prev n) n = prev /\
  (n ∈ toggleRowExpansion prev n <-> n ∉ prev) /\
  (forall m, m <> n -> (m ∈ toggleRowExpansion prev n <-> m ∈ prev)).
Proof.
  destruct (toggle_cases prev n) as [E1 E2].
  destruct (decide (n ∈ prev)) as [H|H].
  - rewrite (E1 H). destruct (toggle_cases (prev ∖ {[ n ]}) n) as [_ E3].
    rewrite E3 by set_solver. split.
    + apply leibniz_equiv. intros x. destruct (decide (x = n)); set_solver.
    + split; [set_solver|]. intros m Hm. set_solver.
  - rewrite (E2 H). destruct (toggle_cases (prev ∪ {[ n ]}) n) as [E3 _].
    rewrite E3 by set_solver. split.
    + apply leibniz_equiv. intros x. destruct (decide (x = n)); set_solver.
    + split; [set_solver|]. intros m Hm. set_solver.
Qed.


(** X7: the words [extractWordsFromJson] adds are exactly those
    [addWord] makes from the non-empty keys and strings of the value
    ([json_words]); nothing else enters the set and nothing leaves it. *)
Theorem extractWordsFromJson_members (v : Json) (S : gset string) (x : string) :
  x ∈ extractWordsFromJson v S <->
  x ∈ S \/ exists w, w ∈ json_words v /\ w <> "" /\
                     (x = toLowerCase w \/ x ∈ splitWordsTokenize w).
Proof. rewrite extractWordsFromJson_fold. apply fold_addWord_iff. Qed.

(** X8: importing a wordlist file adds, for each word [parseWordlist]
    reads from it, that word lowercased and its tokens, and nothing else. *)
Theorem onImportWordlist_members (S : gset string) (text x : string) :
  x ∈ onImportWordlist S text <->
  x ∈ S \/ exists w, w ∈ parseWordlist text /\ (x = toLowerCase w \/ x ∈ splitWordsTokenize w).
Proof.
  unfold onImportWordlist. change (List.filter _ _) with (parseWordlist text).
  rewrite fold_addWord_iff. pose proof (parseWordlist_words text) as Hw.
  rewrite Forall_forall in Hw. split.
  - intros [H|(w & Hin & _ & H)]; [by left|right; by exists w].
  - intros [H|(w & Hin & H)]; [by left|right]. exists w.
    split; [exact Hin|]. split; [exact (proj1 (Hw w Hin))|exact H].
Qed.

(** X9: for a cURL command made of "curl" and one [-H '<h>'] per header
    (each non-empty and without a quote), [onParseCurl] sets the headers
    text to those headers, one per line, in order. *)
Theorem onParseCurl_headers (hs : list string) :
  hs <> [] ->
  Forall (fun h => h <> "" /\ Forall (fun c => c <> "'"%char) (list_ascii_of_string h)) hs ->
  exists u d,
    onParseCurl ("curl" ++ String.concat "" (map (fun h => " -H '" ++ h ++ "'") hs)) =
    Some (mkCurlImport u (join LF hs) d).
Proof.
  intros Hne Hhs.
  set (cmd := ("curl" ++ String.concat "" (map (fun h => " -H '" ++ h ++ "'") hs))%string).
  assert (Hl : list_ascii_of_string cmd =
               (list_ascii_of_string "curl" ++ List.concat (map header_seg hs))%list).
  { unfold cmd. rewrite list_ascii_of_string_app, list_concat_strings. f_equal. f_equal.
    apply map_ext. intros h. unfold header_seg. by rewrite !list_ascii_of_string_app. }
  assert (Htrim : trim cmd = cmd).
  { apply string_eq_of_list. rewrite trim_list_eq. apply trim_list_id; rewrite Hl; [reflexivity|].
    destruct (exists_last Hne) as [hs' [h Eh]].
    assert (Hx : exists X, (list_ascii_of_string "curl" ++ List.concat (map header_seg hs))%list =
                           (X ++ ["'"%char])%list).
    { rewrite Eh, map_app, concat_app. cbn [map List.concat]. rewrite app_nil_r.
      unfold header_seg at 2. eexists. rewrite !app_assoc. reflexivity. }
    destruct Hx as [X ->]. rewrite rev_unit. reflexivity. }
  destruct hs as [|h hs0]; [contradiction|].
  assert (Hp : String.prefix "curl " cmd = true) by (unfold cmd; destruct hs0; reflexivity).
  assert (Hm : match_all (list_ascii_of_string "-H '") (List.length (list_ascii_of_string cmd))
                 (list_ascii_of_string cmd) = h :: hs0).
  { rewrite Hl, length_app.
    transitivity (match_all (list_ascii_of_string "-H '") (List.length (List.concat (map header_seg (h :: hs0))))
                    (List.concat (map header_seg (h :: hs0)))); [reflexivity|].
    apply match_all_segs; [exact Hhs|lia]. }
  unfold onParseCurl. rewrite Htrim, Hp. cbv beta iota zeta delta [negb].
  rewrite Hm. eexists _, _. reflexivity.
Qed.



(** X12: as long as the GraphQL word extraction only adds words, [onSend]
    never removes a word from the word set, whatever the network does. *)
Theorem onSend_wordSet_grows (stringify stringify_pretty : Json -> string)
    (parse_error_message : string -> string)
    (extractWordsFromGraphQL : string -> gset string -> gset string)
    (fetch : HttpRequest -> PageFetch) (pc : PageConfig) (S : gset string) :
  (forall q T, T ⊆ extractWordsFromGraphQL q T) ->
  S ⊆ pv_wordSet (onSend stringify stringify_pretty parse_error_message extractWordsFromGraphQL
                    fetch pc S).
Proof.
  intros Hg. unfold onSend.
  destruct (pc_useProxy pc); destruct (fetch _); cbn [pv_wordSet request_failed];
    try reflexivity; [|apply collect_words_grows, Hg].
  destruct (JSON_parse _) as [j|]; cbn [pv_wordSet request_failed]; [|reflexivity].
  destruct j; case_match; cbn [pv_wordSet]; first [reflexivity|apply collect_words_grows, Hg].
Qed.

(** X13: the proxy answers 204, 200, 404, 405 or 500 and nothing else;
    200 only for POST /forward, with the result of an upstream response
    [forward] resolved with; every answer other than 200 and 204 is an
    [{ error }] object. *)
Theorem proxy_handler_answers (stringify : Json -> string) (parse_error_message : string -> string)
    (read_error_message : string) (forward : ForwardArgs -> ForwardOutcome) (req : ProxyRequest) :
  let r := proxy_handler stringify parse_error_message read_error_message forward req in
  px_status r ∈ [204; 200; 404; 405; 500] /\
  (px_status r = 200 -> pr_method req = "POST" /\ pr_url req = "/forward" /\
     exists args u, forward args = FwdResolve u /\ px_body r = Some (forward_result u)) /\
  (px_status r <> 200 -> px_status r <> 204 ->
     exists msg, px_body r = Some (JObj [("error", JStr msg)])).
Proof.
  unfold proxy_handler.
  destruct (String.eqb_spec (pr_method req) "OPTIONS") as [Ho|Ho]; cbn [px_status px_body].
  { split; [set_solver|]. split; [discriminate|]. intros _ H. contradiction. }
  destruct (String.eqb_spec (pr_method req) "POST") as [Hp|Hp]; cbn [negb px_status px_body].
  2:{ split; [set_solver|]. split; [discriminate|]. intros _ _. eexists. reflexivity. }
  destruct (String.eqb_spec (pr_url req) "/forward") as [Hu|Hu]; cbn [negb px_status px_body].
  2:{ split; [set_solver|]. split; [discriminate|]. intros _ _. eexists. reflexivity. }
  destruct (proxy_try _ _ _ _ _) as [msg|res] eqn:Ht; cbn [px_status px_body].
  - split; [set_solver|]. split; [discriminate|]. intros _ _. eexists. reflexivity.
  - split; [set_solver|]. split; [|intros H; contradiction].
    intros _. split; [exact Hp|]. split; [exact Hu|].
    destruct (proxy_try_inr_forward _ _ _ _ _ _ Ht) as (args & u & Hf & ->). eauto.
Qed.



(** ** Witnesses *)



Lemma startFuzzing_concurrent_batches_witness :
  concat (rs_calls scenario_conc_state) = seq 1 (length (parseWordlist scenario_words)) /\
  rs_running scenario_conc_state = false.
Proof.
  destruct (startFuzzing_concurrent_batches JSON_stringify (fun _ => "Unexpected token") ok_fetch
              (fun _ => 5%nat) (fun _ => false) scenario_cfg scenario_marker 2 scenario_words
              scenario_conc_state)
    as (H1 & _ & _ & _ & _ & _ & _ & H8).
  - intros n req msg. discriminate.
  - intros i. reflexivity.
  - lia.
  - vm_compute. reflexivity.
  - split; [exact H1|exact H8].
Defined.



(** ** Witnesses of the further properties *)

Lemma parseRawHeaders_entry_shape_witness :
  parseRawHeaders ("Host: a" ++ CRLF ++ "X-Trace :  1 ") !! "X-Trace" = Some "1" /\
  trim "X-Trace" = "X-Trace" /\ trim "1" = "1".
Proof.
  assert (H : parseRawHeaders ("Host: a" ++ CRLF ++ "X-Trace :  1 ") !! "X-Trace" = Some "1")
    by (vm_compute; reflexivity).
  split; [exact H|].
  destruct (parseRawHeaders_entry_shape _ _ _ H) as (H1 & H2 & _). split; [exact H1|exact H2].
Defined.

Lemma markForReplacement_selection_witness :
  exists m, ms_replacementMarker (markForReplacement
              (handleQuerySelection (mkMarkerState None "" None) "{ users { id } }" 2 7)) = Some m /\
            replaceTextInQuery "{ users { id } }" m (marker_text m) = "{ users { id } }".
Proof.
  assert (Hb : 2 <= 7 <= String.length "{ users { id } }") by (cbn; lia).
  destruct (markForReplacement_selection (mkMarkerState None "" None) "{ users { id } }" 2 7 Hb)
    as [_ H].
  destruct (H ltac:(lia)) as (m & Hm & _ & _ & _ & Hr & _).
  exists m. split; [exact Hm|exact Hr].
Defined.


Lemma onParseCurl_headers_witness :
  exists u d,
    onParseCurl ("curl" ++ String.concat "" (map (fun h => " -H '" ++ h ++ "'")
                   ["accept: */*"; "content-type: application/json"])) =
    Some (mkCurlImport u (join LF ["accept: */*"; "content-type: application/json"]) d).
Proof.
  apply onParseCurl_headers; [discriminate|].
  repeat constructor; try discriminate; vm_compute; repeat constructor; discriminate.
Defined.


Lemma onSend_wordSet_grows_witness :
  {[ "admin" ]} ⊆ pv_wordSet (onSend JSON_stringify JSON_stringify (fun _ => "Unexpected token")
                   (fun _ S => S) (fun _ => PResp 200 "OK" (dq "{'data':{}}") [])
                   (mkPageConfig "http://localhost:4000/graphql" "" "{ users { id } }" "{}" false
                      "http://localhost:8787/forward") {[ "admin" ]}).
Proof. apply onSend_wordSet_grows. intros q T. reflexivity. Defined.


